(** * Kenya.Tv player script ([script.js]): a shallow embedding

    The script keeps two module-level variables ([playlist], [isPlaying]),
    renders the playlist into the page, hands a selected track to Plyr and
    Hls.js, and persists the playlist and the theme in [localStorage].

    The embedding follows the script function by function.  JavaScript values
    are a tagged union, exceptions are explicit results, and the page, the
    storage and the calls made on Plyr/Hls are fields of an explicit state that
    every function threads through a small state-and-exception monad.

    Conventions.
    - Values are plain data (what JSON can denote, plus [undefined]); objects
      and arrays carry an identity, since [indexOf] compares by [===].
    - An index handed to [playListItem] is an integer-valued Number, kept as
      an integer.
    - The page is what the script reads and writes of it: which elements
      exist, the children of the playlist container, the text last assigned
      to the player's [src] and to the title label, the theme attribute.
      Assigning a value to a text property converts it to text first, which
      can throw.
    - Plyr and Hls.js are collaborators: the calls made on them are logged in
      order and assumed to return.  [localStorage] always accepts a write.
    - The engine's built-ins that are not arithmetic on code units
      ([toLowerCase], [trim], number printing, the JSON codec) are parameters
      of the development (class [Runtime]); an executable instance runs the
      examples.
    - [onceWrapper] is never called by the script; it is modelled by
      itself, in module [Once].  [createListItem] is never called either
      and is left out; [makeElement] is folded into the items it builds. *)

From Stdlib Require Import String Ascii DecimalString.
From Stdlib Require Import List ZArith NArith Bool Lia.
From Stdlib Require Import Floats.SpecFloat.
Import ListNotations.

Set Implicit Arguments.
Set Warnings "-register-all".

(** ** Strings

    A JavaScript string is a sequence of 16-bit code units; a code unit is
    kept as its number.  [str] embeds an 8-bit literal. *)

Module JSString.

Definition code_unit := N.
Definition t := list code_unit.

Definition str (s : string) : t := map N_of_ascii (list_ascii_of_string s).

Fixpoint eqb (a b : t) : bool :=
  match a, b with
  | [], [] => true
  | x :: a', y :: b' => N.eqb x y && eqb a' b'
  | _, _ => false
  end.

(** [startsWith s p]: [p] is a prefix of [s]. *)
Fixpoint startsWith (s p : t) {struct p} : bool :=
  match p, s with
  | [], _ => true
  | y :: p', x :: s' => N.eqb x y && startsWith s' p'
  | _ :: _, [] => false
  end.

(** [String.prototype.includes]: [p] occurs somewhere in [s]. *)
Fixpoint includes (s p : t) : bool :=
  startsWith s p ||
  match s with
  | [] => false
  | _ :: s' => includes s' p
  end.

Definition endsWith (s p : t) : bool := startsWith (rev s) (rev p).

(** [String.prototype.indexOf]: the first position at which [p] occurs. *)
Fixpoint indexOf (s p : t) : option nat :=
  if startsWith s p then Some 0
  else match s with
       | [] => None
       | _ :: s' => option_map S (indexOf s' p)
       end.

End JSString.

Abbreviation jsstring := JSString.t.
Abbreviation str := JSString.str.

(** ** Numbers

    A Number is an IEEE 754 double: zeros, infinities, NaN and finite values
    [(-1)^s * m * 2^e], as in [spec_float]. *)

Definition number := spec_float.

Definition num_is_zero (x : number) : bool :=
  match x with S754_zero _ => true | _ => false end.

Definition num_is_nan (x : number) : bool :=
  match x with S754_nan => true | _ => false end.

Definition num_of_nat (n : nat) : number :=
  match n with
  | O => S754_zero false
  | S _ => S754_finite false (Pos.of_nat n) 0
  end.

(** Equality of Numbers as [===] sees it: by value, [+0 === -0], and NaN is
    equal to nothing. *)
Definition num_eqb (x y : number) : bool :=
  match x, y with
  | S754_zero _, S754_zero _ => true
  | S754_infinity a, S754_infinity b => Bool.eqb a b
  | S754_finite a m e, S754_finite b m' e' =>
      Bool.eqb a b &&
      let k := Z.min e e' in
      Z.eqb (Z.shiftl (Zpos m) (e - k)) (Z.shiftl (Zpos m') (e' - k))
  | _, _ => false
  end.

(** ** Values

    Objects and arrays are reference values: each carries the identity of the
    object it denotes, which is what [===] compares.  Plain data suffices for
    everything the script stores: what [JSON.parse] returns, the literals of
    the script, and the tracks handed to [add]. *)

Definition ObjId := nat.

Inductive JSValue : Type :=
| VUndefined
| VNull
| VBool (b : bool)
| VNum (x : number)
| VStr (s : jsstring)
| VArr (id : ObjId) (elems : list JSValue)
| VObj (id : ObjId) (props : list (jsstring * JSValue)).

Definition Props := list (jsstring * JSValue).

(** ToBoolean. *)
Definition truthy (v : JSValue) : bool :=
  match v with
  | VUndefined | VNull => false
  | VBool b => b
  | VNum x => negb (num_is_zero x || num_is_nan x)
  | VStr s => match s with [] => false | _ :: _ => true end
  | VArr _ _ | VObj _ _ => true
  end.

(** [a === b]. *)
Definition strict_eq (a b : JSValue) : bool :=
  match a, b with
  | VUndefined, VUndefined => true
  | VNull, VNull => true
  | VBool x, VBool y => Bool.eqb x y
  | VNum x, VNum y => num_eqb x y
  | VStr x, VStr y => JSString.eqb x y
  | VArr i _, VArr j _ => Nat.eqb i j
  | VObj i _, VObj j _ => Nat.eqb i j
  | _, _ => false
  end.

(** [a || b] on values. *)
Definition js_or (a b : JSValue) : JSValue := if truthy a then a else b.

Fixpoint lookup (k : jsstring) (ps : Props) : option JSValue :=
  match ps with
  | [] => None
  | (k', v) :: ps' => if JSString.eqb k' k then Some v else lookup k ps'
  end.

Fixpoint set_prop (k : jsstring) (v : JSValue) (ps : Props) : Props :=
  match ps with
  | [] => [(k, v)]
  | (k', v') :: ps' =>
      if JSString.eqb k' k then (k', v) :: ps' else (k', v') :: set_prop k v ps'
  end.

(** ** Exceptions *)

Inductive Exn := TypeError | SyntaxError.

Inductive Res (A : Type) : Type :=
| Ok (a : A)
| Throw (e : Exn).
Arguments Ok {A} a.
Arguments Throw {A} e.

Definition res_bind {A B} (r : Res A) (f : A -> Res B) : Res B :=
  match r with
  | Ok a => f a
  | Throw e => Throw e
  end.

(** ** Property access

    [get_field v k] is [v.k] for the field names the script reads from a track
    ([title], [logo], [lang], [stream_url], [stream]): reading a property of
    [undefined] or [null] is a TypeError; no prototype of a string, number,
    boolean or array defines one of these names, so they read as [undefined]
    there. *)
Definition get_field (v : JSValue) (k : jsstring) : Res JSValue :=
  match v with
  | VUndefined | VNull => Throw TypeError
  | VObj _ ps => Ok (match lookup k ps with Some x => x | None => VUndefined end)
  | _ => Ok VUndefined
  end.

(** [v.length]. *)
Definition get_length (v : JSValue) : Res JSValue :=
  match v with
  | VUndefined | VNull => Throw TypeError
  | VArr _ l => Ok (VNum (num_of_nat (length l)))
  | VStr s => Ok (VNum (num_of_nat (length s)))
  | VObj _ ps =>
      Ok (match lookup (str "length") ps with Some x => x | None => VUndefined end)
  | _ => Ok VUndefined
  end.

(** The property key of an integer index: its decimal numeral (ToString of
    an integer below 10^21 in magnitude, which every safe integer is). *)
Definition index_key (i : Z) : jsstring :=
  str (NilZero.string_of_int (Z.to_int i)).

(** [v[i]] for an integer-valued index [i]. *)
Definition get_elem (v : JSValue) (i : Z) : Res JSValue :=
  match v with
  | VUndefined | VNull => Throw TypeError
  | VArr _ l =>
      Ok (if (i <? 0)%Z then VUndefined
          else match nth_error l (Z.to_nat i) with Some x => x | None => VUndefined end)
  | VStr s =>
      Ok (if (i <? 0)%Z then VUndefined
          else match nth_error s (Z.to_nat i) with
               | Some c => VStr [c]
               | None => VUndefined
               end)
  | VObj _ ps =>
      Ok (match lookup (index_key i) ps with Some x => x | None => VUndefined end)
  | _ => Ok VUndefined
  end.

(** [Array.prototype.indexOf]: the first index whose element is [===] to
    the needle, or [-1]. *)
Fixpoint array_indexOf_from (l : list JSValue) (x : JSValue) (i : nat) : Z :=
  match l with
  | [] => (-1)%Z
  | y :: l' => if strict_eq y x then Z.of_nat i else array_indexOf_from l' x (S i)
  end.

Definition array_indexOf (l : list JSValue) (x : JSValue) : Z :=
  array_indexOf_from l x 0.

(** ** JSON texts and their values

    [JSON] is the tree a JSON text denotes.  [alloc] builds the value
    [JSON.parse] returns for it: every array and object of the tree becomes a
    new object, with an identity not used before; a member name that occurs
    twice keeps its last value. *)

Inductive JSON : Type :=
| J_null
| J_bool (b : bool)
| J_number (x : number)
| J_string (s : jsstring)
| J_array (elems : list JSON)
| J_object (members : list (jsstring * JSON)).

Fixpoint alloc (j : JSON) (n : ObjId) : JSValue * ObjId :=
  match j with
  | J_null => (VNull, n)
  | J_bool b => (VBool b, n)
  | J_number x => (VNum x, n)
  | J_string s => (VStr s, n)
  | J_array l =>
      let fix elems (l : list JSON) (m : ObjId) : list JSValue * ObjId :=
        match l with
        | [] => ([], m)
        | x :: r =>
            let (v, m1) := alloc x m in
            let (vs, m2) := elems r m1 in
            (v :: vs, m2)
        end in
      let (vs, m) := elems l (S n) in
      (VArr n vs, m)
  | J_object ms =>
      let fix members (ms : list (jsstring * JSON)) (acc : Props) (m : ObjId)
          : Props * ObjId :=
        match ms with
        | [] => (acc, m)
        | (k, x) :: r =>
            let (v, m1) := alloc x m in
            members r (set_prop k v acc) m1
        end in
      let (ps, m) := members ms [] (S n) in
      (VObj n ps, m)
  end.

Definition is_array (v : JSValue) : bool :=
  match v with VArr _ _ => true | _ => false end.

(** ** What the engine provides

    The script calls a handful of built-ins.  The development is parametric in
    them: a theorem holds whatever the engine's case mapping, number printing
    and JSON codec are.  [JSON_parse] answers [None] where [JSON.parse] raises
    a SyntaxError; [JSON_stringify] is applied to the playlist array only, for
    which [JSON.stringify] always answers a string.  Lower-casing never
    empties a string. *)

Class Runtime : Type := {
  trim : jsstring -> jsstring;
  toLowerCase : jsstring -> jsstring;
  Number_toString : number -> jsstring;
  JSON_parse : jsstring -> option JSON;
  JSON_stringify : JSValue -> jsstring;
  toLowerCase_nonempty : forall s, toLowerCase s = [] -> s = []
}.

(** ToString, the conversion a value undergoes when it is spliced into a
    template literal or assigned to a text property of an element ([src],
    [alt], [innerHTML], [textContent]): an array is its elements joined by
    commas ([undefined] and [null] elements contributing nothing); an object
    without a [toString] of its own is ["[object Object]"], and one whose own
    [toString] is data (never callable here) cannot be converted: a
    TypeError. *)
Fixpoint to_string {rt : Runtime} (v : JSValue) : Res jsstring :=
  match v with
  | VUndefined => Ok (str "undefined")
  | VNull => Ok (str "null")
  | VBool b => Ok (if b then str "true" else str "false")
  | VNum x => Ok (Number_toString x)
  | VStr s => Ok s
  | VArr _ l =>
      let fix join (l : list JSValue) (first : bool) : Res jsstring :=
        match l with
        | [] => Ok []
        | x :: r =>
            res_bind (match x with
                      | VUndefined | VNull => Ok []
                      | _ => to_string x
                      end) (fun sx =>
            res_bind (join r false) (fun sr =>
            Ok ((if first then [] else str ",") ++ sx ++ sr)))
        end in
      join l true
  | VObj _ ps =>
      match lookup (str "toString") ps with
      | None => Ok (str "[object Object]")
      | Some _ => Throw TypeError
      end
  end.

(** ** The page

    What the script looks up in the document, and whether it is there.
    [env_hls] is [None] when Hls.js is not loaded ([window.Hls] is
    undefined) and [Some b] when it is, [b] being what [Hls.isSupported()]
    answers.  The player element itself is assumed present: the script
    builds its Plyr instance from it unconditionally. *)

Record Env : Type := {
  env_hls : option bool;
  env_root_by_id : bool;       (* getElementById('playlist-root') *)
  env_root_by_class : bool;    (* querySelector('.playlist-root') *)
  env_player_title : bool;     (* querySelector('.player-title') *)
  env_theme_toggle : bool;     (* getElementById('theme-toggle') *)
  env_search_input : bool;     (* querySelector('input.player-search') *)
  env_modal : bool             (* querySelector('.player-modal') *)
}.

(** The [onclick] of a rendered item: the full list plays the index it was
    rendered at; the filtered list keeps the track and looks its index up
    when clicked. *)
Inductive Handler : Type :=
| PlayIndex (i : nat)
| PlayOriginal (it : JSValue).

(** A rendered [<li class="player-list-item">]: the text put into its
    image's [src] and [alt] and into its caption, its [data-index], its
    handler and whether it bears the class [active]. *)
Record Li : Type := {
  li_img_src : jsstring;
  li_img_alt : jsstring;
  li_text : jsstring;
  li_index : option nat;
  li_onclick : Handler;
  li_active : bool
}.

(** The children of the playlist container: as the page shipped them, the
    "No results" message, or a rendered list. *)
Inductive RootContent : Type :=
| Untouched
| Placeholder (msg : jsstring)
| Items (lis : list Li).

(** Calls the script makes on its collaborators, in the order made. *)
Inductive Call : Type :=
| HlsNew
| HlsLoadSource (url : JSValue)
| HlsAttachMedia
| HlsOnManifestParsed
| PlyrOnQualityChange
| PlyrPlay
| SetTimeout (h : Handler) (ms : Z)
| PreventDefault
| FocusSearch
| ModalClose.

(** ** The state *)

(** An Hls instance the script created: the source it was given, and the
    level the script last wrote to its [currentLevel], if any. *)
Record HlsInstance : Type := {
  hls_source : JSValue;
  hls_currentLevel : option Z
}.

(** A [qualitychange] listener: the instance it steers (by its position
    among the instances) and the options it was registered with. *)
Record QualityListener : Type := {
  ql_hls : nat;
  ql_options : list jsstring
}.

Record State : Type := {
  playlist : JSValue;                  (* let playlist = [] *)
  isPlaying : bool;                    (* let isPlaying = false *)
  next_id : ObjId;                     (* identities not yet given out *)
  ls_playlist : option jsstring;       (* localStorage['player-playlist'] *)
  ls_theme : option jsstring;          (* localStorage['player-theme'] *)
  root : RootContent;                  (* the playlist container *)
  player_src : option jsstring;        (* last text assigned to playerElement.src *)
  player_title : option jsstring;      (* last textContent of .player-title *)
  data_theme : option jsstring;        (* <html data-theme=...> *)
  toggle_text : option jsstring;       (* textContent of the theme toggle *)
  hls : list HlsInstance;              (* the Hls instances created, oldest first *)
  quality_options : list jsstring;     (* plyrInstance.config.quality.options *)
  quality_listeners : list QualityListener; (* plyrInstance.on('qualitychange', ...) *)
  calls : list Call                    (* calls made on the collaborators *)
}.

Definition set_playlist (v : JSValue) (s : State) : State :=
  {| playlist := v; isPlaying := isPlaying s; next_id := next_id s;
     ls_playlist := ls_playlist s; ls_theme := ls_theme s;
     root := root s; player_src := player_src s;
     player_title := player_title s; data_theme := data_theme s;
     toggle_text := toggle_text s; hls := hls s;
     quality_options := quality_options s;
     quality_listeners := quality_listeners s; calls := calls s |}.

Definition set_isPlaying (b : bool) (s : State) : State :=
  {| playlist := playlist s; isPlaying := b; next_id := next_id s;
     ls_playlist := ls_playlist s; ls_theme := ls_theme s;
     root := root s; player_src := player_src s;
     player_title := player_title s; data_theme := data_theme s;
     toggle_text := toggle_text s; hls := hls s;
     quality_options := quality_options s;
     quality_listeners := quality_listeners s; calls := calls s |}.

Definition set_next_id (n : ObjId) (s : State) : State :=
  {| playlist := playlist s; isPlaying := isPlaying s; next_id := n;
     ls_playlist := ls_playlist s; ls_theme := ls_theme s;
     root := root s; player_src := player_src s;
     player_title := player_title s; data_theme := data_theme s;
     toggle_text := toggle_text s; hls := hls s;
     quality_options := quality_options s;
     quality_listeners := quality_listeners s; calls := calls s |}.

Definition set_ls_playlist (x : jsstring) (s : State) : State :=
  {| playlist := playlist s; isPlaying := isPlaying s; next_id := next_id s;
     ls_playlist := Some x; ls_theme := ls_theme s; root := root s;
     player_src := player_src s; player_title := player_title s;
     data_theme := data_theme s; toggle_text := toggle_text s;
     hls := hls s; quality_options := quality_options s;
     quality_listeners := quality_listeners s; calls := calls s |}.

Definition set_ls_theme (x : jsstring) (s : State) : State :=
  {| playlist := playlist s; isPlaying := isPlaying s; next_id := next_id s;
     ls_playlist := ls_playlist s; ls_theme := Some x; root := root s;
     player_src := player_src s; player_title := player_title s;
     data_theme := data_theme s; toggle_text := toggle_text s;
     hls := hls s; quality_options := quality_options s;
     quality_listeners := quality_listeners s; calls := calls s |}.

Definition set_root (r : RootContent) (s : State) : State :=
  {| playlist := playlist s; isPlaying := isPlaying s; next_id := next_id s;
     ls_playlist := ls_playlist s; ls_theme := ls_theme s; root := r;
     player_src := player_src s; player_title := player_title s;
     data_theme := data_theme s; toggle_text := toggle_text s;
     hls := hls s; quality_options := quality_options s;
     quality_listeners := quality_listeners s; calls := calls s |}.

Definition set_player_src (v : jsstring) (s : State) : State :=
  {| playlist := playlist s; isPlaying := isPlaying s; next_id := next_id s;
     ls_playlist := ls_playlist s; ls_theme := ls_theme s;
     root := root s; player_src := Some v;
     player_title := player_title s; data_theme := data_theme s;
     toggle_text := toggle_text s; hls := hls s;
     quality_options := quality_options s;
     quality_listeners := quality_listeners s; calls := calls s |}.

Definition set_player_title (v : jsstring) (s : State) : State :=
  {| playlist := playlist s; isPlaying := isPlaying s; next_id := next_id s;
     ls_playlist := ls_playlist s; ls_theme := ls_theme s;
     root := root s; player_src := player_src s; player_title := Some v;
     data_theme := data_theme s; toggle_text := toggle_text s;
     hls := hls s; quality_options := quality_options s;
     quality_listeners := quality_listeners s; calls := calls s |}.

Definition set_data_theme (x : jsstring) (s : State) : State :=
  {| playlist := playlist s; isPlaying := isPlaying s; next_id := next_id s;
     ls_playlist := ls_playlist s; ls_theme := ls_theme s;
     root := root s; player_src := player_src s;
     player_title := player_title s; data_theme := Some x;
     toggle_text := toggle_text s; hls := hls s;
     quality_options := quality_options s;
     quality_listeners := quality_listeners s; calls := calls s |}.

Definition set_toggle_text (x : jsstring) (s : State) : State :=
  {| playlist := playlist s; isPlaying := isPlaying s; next_id := next_id s;
     ls_playlist := ls_playlist s; ls_theme := ls_theme s;
     root := root s; player_src := player_src s;
     player_title := player_title s; data_theme := data_theme s;
     toggle_text := Some x; hls := hls s;
     quality_options := quality_options s;
     quality_listeners := quality_listeners s; calls := calls s |}.

Definition set_hls (h : list HlsInstance) (s : State) : State :=
  {| playlist := playlist s; isPlaying := isPlaying s; next_id := next_id s;
     ls_playlist := ls_playlist s; ls_theme := ls_theme s;
     root := root s; player_src := player_src s;
     player_title := player_title s; data_theme := data_theme s;
     toggle_text := toggle_text s; hls := h;
     quality_options := quality_options s;
     quality_listeners := quality_listeners s; calls := calls s |}.

Definition set_quality_options (o : list jsstring) (s : State) : State :=
  {| playlist := playlist s; isPlaying := isPlaying s; next_id := next_id s;
     ls_playlist := ls_playlist s; ls_theme := ls_theme s;
     root := root s; player_src := player_src s;
     player_title := player_title s; data_theme := data_theme s;
     toggle_text := toggle_text s; hls := hls s; quality_options := o;
     quality_listeners := quality_listeners s; calls := calls s |}.

Definition add_quality_listener (q : QualityListener) (s : State) : State :=
  {| playlist := playlist s; isPlaying := isPlaying s; next_id := next_id s;
     ls_playlist := ls_playlist s; ls_theme := ls_theme s;
     root := root s; player_src := player_src s;
     player_title := player_title s; data_theme := data_theme s;
     toggle_text := toggle_text s; hls := hls s;
     quality_options := quality_options s;
     quality_listeners := quality_listeners s ++ [q];
     calls := calls s |}.

Definition add_call (c : Call) (s : State) : State :=
  {| playlist := playlist s; isPlaying := isPlaying s; next_id := next_id s;
     ls_playlist := ls_playlist s; ls_theme := ls_theme s;
     root := root s; player_src := player_src s;
     player_title := player_title s; data_theme := data_theme s;
     toggle_text := toggle_text s; hls := hls s;
     quality_options := quality_options s;
     quality_listeners := quality_listeners s;
     calls := calls s ++ [c] |}.

(** ** The monad: state, and an exception that ends the running handler *)

Definition M (A : Type) : Type := State -> Res A * State.

Definition ret {A} (a : A) : M A := fun s => (Ok a, s).

Definition bind {A B} (m : M A) (f : A -> M B) : M B :=
  fun s =>
    match m s with
    | (Ok a, s') => f a s'
    | (Throw e, s') => (Throw e, s')
    end.

Definition lift {A} (r : Res A) : M A := fun s => (r, s).

Definition get : M State := fun s => (Ok s, s).

Definition modify (f : State -> State) : M unit := fun s => (Ok tt, f s).

(** [try { m } catch (err) { h }]. *)
Definition try_catch {A} (m : M A) (h : M A) : M A :=
  fun s =>
    match m s with
    | (Ok a, s') => (Ok a, s')
    | (Throw _, s') => h s'
    end.

Definition when (b : bool) (m : M unit) : M unit := if b then m else ret tt.

Declare Scope js_scope.
Delimit Scope js_scope with js.
Notation "x <- c ;; k" := (bind c (fun x => k))
  (at level 61, c at next level, right associativity) : js_scope.
Notation "c ;; k" := (bind c (fun _ => k))
  (at level 61, right associativity) : js_scope.
Notation "x <~ r ;; k" := (res_bind r (fun x => k))
  (at level 61, r at next level, right associativity) : js_scope.
Open Scope js_scope.

(** The state a handler leaves behind, whether it returned or threw. *)
Definition exec {A} (m : M A) (s : State) : State := snd (m s).

(** ** The script *)

Definition DEFAULT_EMPTY_MESSAGE : jsstring := str "No results".
Definition ICON_LIGHT : jsstring := [9728; 65039]%N.     (* U+2600 U+FE0F *)
Definition ICON_DARK : jsstring := [55356; 57113]%N.     (* U+1F319 *)

Definition num_zero : number := S754_zero false.

(** The state in which the script starts: what earlier visits left in
    [localStorage] and the [data-theme] the page shipped with are inputs. *)
Definition initial_state (saved_playlist saved_theme theme_attr : option jsstring)
  : State :=
  {| playlist := VArr 0 []; isPlaying := false; next_id := 1;
     ls_playlist := saved_playlist; ls_theme := saved_theme;
     root := Untouched; player_src := None; player_title := None;
     data_theme := theme_attr; toggle_text := None;
     hls := []; quality_options := []; quality_listeners := [];
     calls := [] |}.

Definition fresh : M ObjId :=
  fun s => (Ok (next_id s), set_next_id (S (next_id s)) s).

Fixpoint filterM {A} (f : A -> Res bool) (l : list A) : Res (list A) :=
  match l with
  | [] => Ok []
  | x :: r =>
      b <~ f x ;;
      r' <~ filterM f r ;;
      Ok (if b then x :: r' else r')
  end.

Fixpoint mapiM {A B} (f : A -> nat -> Res B) (l : list A) (i : nat) : Res (list B) :=
  match l with
  | [] => Ok []
  | x :: r =>
      y <~ f x i ;;
      r' <~ mapiM f r (S i) ;;
      Ok (y :: r')
  end.

Section Script.

Context {rt : Runtime}.
Variable env : Env.

(** *** buildPlaylistUI (every call passes ['playlist-root'])

    The list is assembled off the page; a track that is [null] or
    [undefined] makes [item.title] throw, and a logo or title that cannot be
    converted to text makes the assignment throw, before the container is
    touched. *)

Definition build_item (item : JSValue) (i : nat) : Res Li :=
  t <~ get_field item (str "title") ;;
  let title := js_or t (VStr (str "Untitled")) in
  lg <~ get_field item (str "logo") ;;
  let imgUrl := js_or lg (VStr []) in
  la <~ get_field item (str "lang") ;;
  let lang := js_or la (VStr (str "en")) in
  src <~ to_string imgUrl ;;
  alt <~ to_string title ;;
  caption <~ to_string title ;;
  Ok {| li_img_src := src; li_img_alt := alt; li_text := caption;
        li_index := Some i; li_onclick := PlayIndex i; li_active := false |}.

Definition buildPlaylistUI : M unit :=
  if negb (env_root_by_id env || env_root_by_class env) then ret tt
  else
    s <- get ;;
    match playlist s with
    | VArr _ ((_ :: _) as l) =>
        lis <- lift (mapiM build_item l 0) ;;
        modify (set_root (Items lis))
    | _ => modify (set_root (Placeholder DEFAULT_EMPTY_MESSAGE))
    end.

(** *** playListItem *)

Fixpoint mark_active_from (index : Z) (idx : nat) (lis : list Li) : list Li :=
  match lis with
  | [] => []
  | li :: r =>
      {| li_img_src := li_img_src li; li_img_alt := li_img_alt li;
         li_text := li_text li; li_index := li_index li;
         li_onclick := li_onclick li;
         li_active := Z.eqb (Z.of_nat idx) index |}
      :: mark_active_from index (S idx) r
  end.

(** [querySelectorAll('.player-list-item')] finds the items of the rendered
    list, in order. *)
Definition mark_active (index : Z) (r : RootContent) : RootContent :=
  match r with
  | Items lis => Items (mark_active_from index 0 lis)
  | other => other
  end.

(** [item.stream_url || item.stream || ''] *)
Definition resolve_url (item : JSValue) : Res JSValue :=
  su <~ get_field item (str "stream_url") ;;
  if truthy su then Ok su
  else
    st <~ get_field item (str "stream") ;;
    Ok (js_or st (VStr [])).

(** [url.includes('.m3u8')]: a substring test on a string, a membership
    test on an array, and not a function on anything else. *)
Definition url_includes (url : JSValue) (p : jsstring) : Res bool :=
  match url with
  | VStr s => Ok (JSString.includes s p)
  | VArr _ l => Ok (existsb (fun x => strict_eq x (VStr p)) l)
  | _ => Throw TypeError
  end.

(** [window.Hls && Hls.isSupported() && url.includes('.m3u8')] *)
Definition use_hls (url : JSValue) : Res bool :=
  match env_hls env with
  | None => Ok false
  | Some false => Ok false
  | Some true => url_includes url (str ".m3u8")
  end.

(** [new Hls()]: one more instance, for [url]. *)
Definition new_hls (url : JSValue) (s : State) : State :=
  set_hls (hls s ++ [{| hls_source := url; hls_currentLevel := None |}]) s.

Definition playListItem (index : Z) : M unit :=
  s <- get ;;
  item <- lift (get_elem (playlist s) index) ;;
  if negb (truthy item) then ret tt
  else
    modify (fun s => set_root (mark_active index (root s)) s) ;;
    url <- lift (resolve_url item) ;;
    adaptive <- lift (use_hls url) ;;
    (if adaptive then
       modify (new_hls url) ;;
       modify (add_call HlsNew) ;;
       modify (add_call (HlsLoadSource url)) ;;
       modify (add_call HlsAttachMedia) ;;
       modify (add_call HlsOnManifestParsed)
     else
       src <- lift (to_string url) ;;
       modify (set_player_src src)) ;;
    (if env_player_title env then
       t <- lift (get_field item (str "title")) ;;
       text <- lift (to_string (js_or t (VStr []))) ;;
       modify (set_player_title text)
     else ret tt) ;;
    modify (add_call PlyrPlay) ;;
    modify (set_isPlaying true).

(** [`${l.height}p @ ${l.bitrate}`] *)
Definition quality_label (l : JSValue) : Res jsstring :=
  h <~ get_field l (str "height") ;;
  hs <~ to_string h ;;
  b <~ get_field l (str "bitrate") ;;
  bs <~ to_string b ;;
  Ok (hs ++ str "p @ " ++ bs).

Fixpoint mapM {A B} (f : A -> Res B) (l : list A) : Res (list B) :=
  match l with
  | [] => Ok []
  | x :: r =>
      y <~ f x ;;
      r' <~ mapM f r ;;
      Ok (y :: r')
  end.

(** The callback given to [hls.on(Hls.Events.MANIFEST_PARSED, ...)] by the
    [n]-th instance, run by Hls.js with [levels] being what [hls.levels]
    then holds: [(hls.levels || []).map(...)] becomes the player's quality
    options, and a [qualitychange] listener is registered. *)
Definition onManifestParsed (n : nat) (levels : JSValue) : M unit :=
  qualityOptions <-
    lift (if truthy levels then
            match levels with
            | VArr _ l => mapM quality_label l
            | _ => Throw TypeError
            end
          else Ok []) ;;
  modify (set_quality_options qualityOptions) ;;
  modify (add_call PlyrOnQualityChange) ;;
  modify (add_quality_listener {| ql_hls := n; ql_options := qualityOptions |}).

(** [qualityOptions.indexOf(ev.detail.quality)] *)
Fixpoint options_indexOf (opts : list jsstring) (q : JSValue) (i : nat) : Z :=
  match opts with
  | [] => (-1)%Z
  | o :: r => if strict_eq (VStr o) q then Z.of_nat i else options_indexOf r q (S i)
  end.

Fixpoint set_level (hs : list HlsInstance) (n : nat) (level : Z) : list HlsInstance :=
  match hs, n with
  | [], _ => []
  | h :: r, O => {| hls_source := hls_source h; hls_currentLevel := Some level |} :: r
  | h :: r, S n' => h :: set_level r n' level
  end.

(** Plyr's [qualitychange] event: every listener registered so far sets the
    current level of its instance. *)
Definition onQualityChange (quality : JSValue) : M unit :=
  modify (fun s =>
    set_hls (fold_left
               (fun hs q => set_level hs (ql_hls q)
                              (options_indexOf (ql_options q) quality 0))
               (quality_listeners s) (hls s)) s).

(** *** searchPlaylist *)

(** The callback given to [playlist.filter]. *)
Definition title_matches (normalized : jsstring) (it : JSValue) : Res bool :=
  if negb (truthy it) then Ok false
  else
    t <~ get_field it (str "title") ;;
    if negb (truthy t) then Ok false
    else match t with
         | VStr s => Ok (JSString.includes (toLowerCase s) normalized)
         | _ => Throw TypeError
         end.

(** [playlist.filter(...)]: only an array has [filter]. *)
Definition filter_playlist (normalized : jsstring) (p : JSValue)
  : Res (list JSValue) :=
  match p with
  | VArr _ l => filterM (title_matches normalized) l
  | _ => Throw TypeError
  end.

(** The item built for a filtered track: its markup is a template literal
    into which [it.logo || ''], [it.title || ''] and [it.title] are spliced,
    in this order. *)
Definition filtered_item (it : JSValue) (i : nat) : Res Li :=
  lg <~ get_field it (str "logo") ;;
  src <~ to_string (js_or lg (VStr [])) ;;
  t <~ get_field it (str "title") ;;
  alt <~ to_string (js_or t (VStr [])) ;;
  caption <~ to_string t ;;
  Ok {| li_img_src := src; li_img_alt := alt; li_text := caption;
        li_index := None; li_onclick := PlayOriginal it;
        li_active := false |}.

Definition searchPlaylist (query : jsstring) : M unit :=
  let normalized := toLowerCase (trim query) in
  match normalized with
  | [] => buildPlaylistUI
  | _ :: _ =>
      s <- get ;;
      filtered <- lift (filter_playlist normalized (playlist s)) ;;
      if negb (env_root_by_id env) then ret tt
      else
        match filtered with
        | [] => modify (set_root (Placeholder DEFAULT_EMPTY_MESSAGE))
        | _ :: _ =>
            modify (set_root (Items [])) ;;
            lis <- lift (mapiM filtered_item filtered 0) ;;
            modify (set_root (Items lis))
        end
  end.

(** *** Item handlers *)

(** [playlist.indexOf(it)]: strict equality on an array, a text search on
    a string, and not a function on anything else. *)
Definition playlist_indexOf (p it : JSValue) : Res Z :=
  match p with
  | VArr _ l => Ok (array_indexOf l it)
  | VStr s =>
      t <~ to_string it ;;
      Ok (match JSString.indexOf s t with
          | Some i => Z.of_nat i
          | None => (-1)%Z
          end)
  | _ => Throw TypeError
  end.

(** The index a handler passes to [playListItem], if it calls it. *)
Definition handler_target (h : Handler) : M (option Z) :=
  match h with
  | PlayIndex i => ret (Some (Z.of_nat i))
  | PlayOriginal it =>
      s <- get ;;
      realIndex <- lift (playlist_indexOf (playlist s) it) ;;
      ret (if Z.eqb realIndex (-1) then None else Some realIndex)
  end.

Definition run_handler (h : Handler) : M unit :=
  target <- handler_target h ;;
  match target with
  | Some i => playListItem i
  | None => ret tt
  end.

(** Clicking the [k]-th rendered item. *)
Definition click (k : nat) : M unit :=
  s <- get ;;
  match root s with
  | Items lis =>
      match nth_error lis k with
      | Some li => run_handler (li_onclick li)
      | None => ret tt
      end
  | _ => ret tt
  end.

(** *** Theme *)

Definition theme_icon (theme : jsstring) : jsstring :=
  if JSString.eqb theme (str "light") then ICON_LIGHT else ICON_DARK.

Definition initializeTheme : M unit :=
  s <- get ;;
  match ls_theme s with
  | Some ((_ :: _) as saved) =>
      modify (set_data_theme saved) ;;
      when (env_theme_toggle env) (modify (set_toggle_text (theme_icon saved)))
  | _ =>
      let defaultTheme := str "dark" in
      modify (set_data_theme defaultTheme) ;;
      when (env_theme_toggle env)
           (modify (set_toggle_text (theme_icon defaultTheme))) ;;
      modify (set_ls_theme defaultTheme)
  end.

(** The toggle's [onclick], bound only when the toggle exists. *)
Definition themeToggleClick : M unit :=
  when (env_theme_toggle env)
    (s <- get ;;
     let current := match data_theme s with
                    | Some ((_ :: _) as c) => c
                    | _ => str "dark"
                    end in
     let next := if JSString.eqb current (str "light")
                 then str "dark" else str "light" in
     modify (set_data_theme next) ;;
     modify (set_toggle_text (theme_icon next)) ;;
     modify (set_ls_theme next)).

(** *** handleKeydown *)

Definition handleKeydown (key : jsstring) : M unit :=
  s <- get ;;
  if negb (isPlaying s)
     && (JSString.eqb key (str " ") || JSString.eqb key (str "Enter"))
  then
    modify (add_call PreventDefault) ;;
    modify (add_call PlyrPlay) ;;
    modify (set_isPlaying true)
  else
    when (JSString.eqb key (str "/"))
      (modify (add_call PreventDefault) ;;
       when (env_search_input env) (modify (add_call FocusSearch))) ;;
    when (JSString.eqb key (str "Escape"))
      (when (env_modal env) (modify (add_call ModalClose))).

(** *** DOMContentLoaded *)

Definition demo_track (id : ObjId) (title url : string) : JSValue :=
  VObj id [ (str "title", VStr (str title));
            (str "stream_url", VStr (str url));
            (str "logo", VStr []);
            (str "lang", VStr (str "en")) ].

(** The literal of lines 329-332, its three objects numbered from [a]. *)
Definition demo_playlist (a : ObjId) : JSValue :=
  VArr a [ demo_track (a + 1) "Demo Channel 1" "https://example.com/stream1.m3u8";
           demo_track (a + 2) "Demo Channel 2" "https://example.com/stream2.mp4" ].

(** [JSON.parse(text)]: the value is built from objects of its own. *)
Definition parse (text : jsstring) : M JSValue :=
  fun s =>
    match JSON_parse text with
    | Some j => let (v, n) := alloc j (next_id s) in (Ok v, set_next_id n s)
    | None => (Throw SyntaxError, s)
    end.

(** Lines 318-325: the saved playlist, if there is one, replaces the
    variable; a text that does not parse leaves a new empty array. *)
Definition load_saved : M unit :=
  s <- get ;;
  match ls_playlist s with
  | Some ((_ :: _) as savedPlaylistJson) =>
      try_catch
        (v <- parse savedPlaylistJson ;; modify (set_playlist v))
        (a <- fresh ;; modify (set_playlist (VArr a [])))
  | _ => ret tt
  end.

(** [!playlist || playlist.length === 0] *)
Definition needs_fallback (p : JSValue) : Res bool :=
  if negb (truthy p) then Ok true
  else
    len <~ get_length p ;;
    Ok (strict_eq len (VNum num_zero)).

(** Lines 328-333. *)
Definition apply_fallback : M unit :=
  s <- get ;;
  b <- lift (needs_fallback (playlist s)) ;;
  when b
    (a <- fresh ;; _ <- fresh ;; _ <- fresh ;;
     modify (set_playlist (demo_playlist a))).

Definition load : M unit :=
  load_saved ;;
  apply_fallback ;;
  buildPlaylistUI ;;
  modify (add_call (SetTimeout (PlayIndex 0) 50)).

(** *** The public API *)

Definition addToPlaylist (item : JSValue) : M unit :=
  s <- get ;;
  match playlist s with
  | VArr id l => modify (set_playlist (VArr id (l ++ [item])))
  | _ => lift (Throw TypeError)
  end ;;
  s <- get ;;
  modify (set_ls_playlist (JSON_stringify (playlist s))) ;;
  buildPlaylistUI.

Definition playIndex := playListItem.
Definition search := searchPlaylist.
Definition add := addToPlaylist.
Definition getPlaylist (s : State) : JSValue := playlist s.

(** *** Events

    Everything that makes the script run after it has been loaded. *)
Inductive Event : Type :=
| DOMContentLoaded
| TimerFires                     (* the timer set by the load handler *)
| ManifestParsed (n : nat) (levels : JSValue)
                                 (* Hls.js: the manifest of instance n,
                                    if the script created one *)
| QualityChange (quality : JSValue)  (* Plyr: a quality was selected *)
| Keydown (key : jsstring)
| ClickItem (k : nat)
| ClickThemeToggle
| CallPlayIndex (index : Z)
| CallSearch (query : jsstring)
| CallAdd (item : JSValue).

Definition dispatch (ev : Event) : M unit :=
  match ev with
  | DOMContentLoaded => load
  | TimerFires => playListItem 0
  | ManifestParsed n levels =>
      s <- get ;;
      when (Nat.ltb n (length (hls s))) (onManifestParsed n levels)
  | QualityChange quality => onQualityChange quality
  | Keydown key => handleKeydown key
  | ClickItem k => click k
  | ClickThemeToggle => themeToggleClick
  | CallPlayIndex i => playIndex i
  | CallSearch q => search q
  | CallAdd item => add item
  end.

(** An exception ends the handler that raised it and nothing else. *)
Fixpoint run (evs : list Event) (s : State) : State :=
  match evs with
  | [] => s
  | ev :: evs' => run evs' (exec (dispatch ev) s)
  end.

(** The script's top level, then the events. *)
Definition session (saved_playlist saved_theme theme_attr : option jsstring)
    (evs : list Event) : State :=
  run evs (exec initializeTheme
                (initial_state saved_playlist saved_theme theme_attr)).

End Script.

(** ** A reference engine

    An executable instance of [Runtime], used to run the script on concrete
    inputs.  [trim] and the JSON reader follow ECMAScript on code units;
    [toLowerCase] maps the ASCII letters and leaves every other code unit as
    it is; numbers are printed as their exact decimal expansion, where an
    engine prints the shortest numeral that reads back to the same Number. *)

Module Engine.

(** WhiteSpace and LineTerminator code units. *)
Definition is_space (c : N) : bool :=
  (N.leb 9 c && N.leb c 13) || N.eqb c 32 || N.eqb c 160 || N.eqb c 5760
  || (N.leb 8192 c && N.leb c 8202) || N.eqb c 8232 || N.eqb c 8233
  || N.eqb c 8239 || N.eqb c 8287 || N.eqb c 12288 || N.eqb c 65279.

Fixpoint trimStart (s : jsstring) : jsstring :=
  match s with
  | c :: r => if is_space c then trimStart r else s
  | [] => []
  end.

Definition trim (s : jsstring) : jsstring :=
  rev (trimStart (rev (trimStart s))).

Definition lower (c : N) : N :=
  if N.leb 65 c && N.leb c 90 then (c + 32)%N else c.

Definition toLowerCase (s : jsstring) : jsstring := map lower s.

(** *** Printing numbers *)

Definition digit (d : Z) : N := (48 + Z.to_N d)%N.

Fixpoint digits_fuel (fuel : nat) (n : Z) (acc : jsstring) : jsstring :=
  match fuel with
  | O => acc
  | S f =>
      if (n <? 10)%Z then digit n :: acc
      else digits_fuel f (n / 10)%Z (digit (n mod 10)%Z :: acc)
  end.

(** The decimal numeral of [n >= 0]. *)
Definition decimal (n : Z) : jsstring :=
  digits_fuel (S (Z.to_nat (Z.log2 n))) n [].

(** The first [k] decimals of [r / 2^k], which are all of them. *)
Fixpoint decimals (k : nat) (r : Z) (pow : Z) : jsstring :=
  match k with
  | O => []
  | S k' =>
      let r10 := (r * 10)%Z in
      digit (r10 / pow)%Z :: decimals k' (r10 mod pow)%Z pow
  end.

Fixpoint strip_zeros (rs : jsstring) : jsstring :=
  match rs with
  | 48%N :: r => strip_zeros r
  | _ => rs
  end.

Definition Number_toString (x : number) : jsstring :=
  match x with
  | S754_nan => str "NaN"
  | S754_infinity s => (if s then str "-" else []) ++ str "Infinity"
  | S754_zero _ => str "0"
  | S754_finite s m e =>
      (if s then str "-" else []) ++
      match e with
      | Zneg k =>
          let pow := Z.pow 2 (Zpos k) in
          let frac :=
            rev (strip_zeros (rev (decimals (Pos.to_nat k) (Zpos m mod pow) pow))) in
          decimal (Zpos m / pow) ++
          match frac with [] => [] | _ :: _ => str "." ++ frac end
      | _ => decimal (Zpos m * Z.pow 2 e)
      end
  end.

(** *** Reading JSON *)

Definition is_json_space (c : N) : bool :=
  N.eqb c 32 || N.eqb c 9 || N.eqb c 10 || N.eqb c 13.

Fixpoint skip_ws (s : jsstring) : jsstring :=
  match s with
  | c :: r => if is_json_space c then skip_ws r else s
  | [] => []
  end.

Definition is_digit (c : N) : bool := N.leb 48 c && N.leb c 57.

Definition hex_value (c : N) : option N :=
  if is_digit c then Some (c - 48)%N
  else if N.leb 97 c && N.leb c 102 then Some (c - 87)%N
  else if N.leb 65 c && N.leb c 70 then Some (c - 55)%N
  else None.

Definition hex4 (a b c d : N) : option N :=
  match hex_value a, hex_value b, hex_value c, hex_value d with
  | Some x, Some y, Some z, Some w => Some (((x * 16 + y) * 16 + z) * 16 + w)%N
  | _, _, _, _ => None
  end.

(** The characters of a string literal after its opening quote. *)
Fixpoint read_string (s : jsstring) (acc : jsstring) : option (jsstring * jsstring) :=
  match s with
  | [] => None
  | 34%N :: r => Some (rev acc, r)
  | 92%N :: e :: r =>
      match e with
      | 34%N => read_string r (34%N :: acc)
      | 92%N => read_string r (92%N :: acc)
      | 47%N => read_string r (47%N :: acc)
      | 98%N => read_string r (8%N :: acc)
      | 102%N => read_string r (12%N :: acc)
      | 110%N => read_string r (10%N :: acc)
      | 114%N => read_string r (13%N :: acc)
      | 116%N => read_string r (9%N :: acc)
      | 117%N =>
          match r with
          | a :: b :: c :: d :: r' =>
              match hex4 a b c d with
              | Some u => read_string r' (u :: acc)
              | None => None
              end
          | _ => None
          end
      | _ => None
      end
  | c :: r => if N.ltb c 32 then None else read_string r (c :: acc)
  end.

Fixpoint read_digits (s : jsstring) (acc : Z) (n : nat) : Z * nat * jsstring :=
  match s with
  | c :: r =>
      if is_digit c then read_digits r (acc * 10 + Z.of_N (c - 48))%Z (S n)
      else (acc, n, s)
  | [] => (acc, n, s)
  end.

(** The double nearest to [m * 10^e10], ties to even. *)
Definition decimal_to_number (neg : bool) (m : Z) (e10 : Z) : number :=
  if (m =? 0)%Z then S754_zero neg
  else if (0 <=? e10)%Z then
    binary_round 53 1024 neg (Z.to_pos (m * Z.pow 10 e10)) 0
  else
    let '(q, e, l) := SFdiv_core_binary 53 1024 m 0 (Z.pow 10 (- e10)) 0 in
    binary_round_aux 53 1024 neg q e l.

(** A number literal: [-? int frac? exp?]. *)
Definition read_number (s : jsstring) : option (number * jsstring) :=
  let '(neg, s1) := match s with 45%N :: r => (true, r) | _ => (false, s) end in
  let '(i, ni, s2) := read_digits s1 0%Z 0 in
  let leading_zero := match s1 with 48%N :: _ => true | _ => false end in
  if Nat.eqb ni 0 || (leading_zero && negb (Nat.eqb ni 1)) then None
  else
    let frac :=
      match s2 with
      | 46%N :: r =>
          let '(m, nf, s3) := read_digits r i 0 in
          if Nat.eqb nf 0 then None else Some (m, nf, s3)
      | _ => Some (i, 0, s2)
      end in
    match frac with
    | None => None
    | Some (m, nf, s3) =>
        let exp :=
          match s3 with
          | c :: r =>
              if N.eqb c 101 || N.eqb c 69 then
                let '(eneg, r1) :=
                  match r with
                  | 45%N :: r' => (true, r')
                  | 43%N :: r' => (false, r')
                  | _ => (false, r)
                  end in
                let '(e, ne, s4) := read_digits r1 0%Z 0 in
                if Nat.eqb ne 0 then None
                else Some ((if eneg then - e else e)%Z, s4)
              else Some (0%Z, s3)
          | [] => Some (0%Z, s3)
          end in
        match exp with
        | None => None
        | Some (e, s4) =>
            Some (decimal_to_number neg m (e - Z.of_nat nf), s4)
        end
    end.

Fixpoint expect (word : jsstring) (s : jsstring) : option jsstring :=
  match word, s with
  | [], _ => Some s
  | w :: word', c :: r => if N.eqb w c then expect word' r else None
  | _ :: _, [] => None
  end.

Fixpoint read_value (fuel : nat) (s : jsstring) : option (JSON * jsstring) :=
  match fuel with
  | O => None
  | S f =>
      match skip_ws s with
      | [] => None
      | c :: r =>
          if N.eqb c 110 then option_map (pair J_null) (expect (str "ull") r)
          else if N.eqb c 116 then
            option_map (pair (J_bool true)) (expect (str "rue") r)
          else if N.eqb c 102 then
            option_map (pair (J_bool false)) (expect (str "alse") r)
          else if N.eqb c 34 then
            match read_string r [] with
            | Some (t, r') => Some (J_string t, r')
            | None => None
            end
          else if N.eqb c 91 then
            match skip_ws r with
            | 93%N :: r' => Some (J_array [], r')
            | _ => read_elements f r []
            end
          else if N.eqb c 123 then
            match skip_ws r with
            | 125%N :: r' => Some (J_object [], r')
            | _ => read_members f r []
            end
          else
            match read_number (c :: r) with
            | Some (x, r') => Some (J_number x, r')
            | None => None
            end
      end
  end
with read_elements (fuel : nat) (s : jsstring) (acc : list JSON)
  : option (JSON * jsstring) :=
  match fuel with
  | O => None
  | S f =>
      match read_value f s with
      | Some (v, r) =>
          match skip_ws r with
          | 44%N :: r' => read_elements f r' (v :: acc)
          | 93%N :: r' => Some (J_array (rev (v :: acc)), r')
          | _ => None
          end
      | None => None
      end
  end
with read_members (fuel : nat) (s : jsstring) (acc : list (jsstring * JSON))
  : option (JSON * jsstring) :=
  match fuel with
  | O => None
  | S f =>
      match skip_ws s with
      | 34%N :: r =>
          match read_string r [] with
          | Some (k, r1) =>
              match skip_ws r1 with
              | 58%N :: r2 =>
                  match read_value f r2 with
                  | Some (v, r3) =>
                      match skip_ws r3 with
                      | 44%N :: r' => read_members f r' ((k, v) :: acc)
                      | 125%N :: r' => Some (J_object (rev ((k, v) :: acc)), r')
                      | _ => None
                      end
                  | None => None
                  end
              | _ => None
              end
          | None => None
          end
      | _ => None
      end
  end.

Definition JSON_parse (text : jsstring) : option JSON :=
  match read_value (2 * length text + 2) text with
  | Some (j, r) => match skip_ws r with [] => Some j | _ :: _ => None end
  | None => None
  end.

(** *** Writing JSON *)

Definition hex_digit (d : N) : N := if N.ltb d 10 then (48 + d)%N else (87 + d)%N.

Definition escape_u (c : N) : jsstring :=
  str "\u" ++ [hex_digit (c / 4096); hex_digit ((c / 256) mod 16);
               hex_digit ((c / 16) mod 16); hex_digit (c mod 16)]%N.

Definition is_high (c : N) : bool := N.leb 55296 c && N.leb c 56319.
Definition is_low (c : N) : bool := N.leb 56320 c && N.leb c 57343.

(** The body of a quoted string; [prev_high] tells that the code unit before
    was a leading surrogate that this one may complete. *)
Fixpoint quote_body (s : jsstring) (prev_high : bool) : jsstring :=
  match s with
  | [] => []
  | c :: r =>
      if N.eqb c 34 then str "\" ++ [34%N] ++ quote_body r false
      else if N.eqb c 92 then str "\\" ++ quote_body r false
      else if N.eqb c 8 then str "\b" ++ quote_body r false
      else if N.eqb c 12 then str "\f" ++ quote_body r false
      else if N.eqb c 10 then str "\n" ++ quote_body r false
      else if N.eqb c 13 then str "\r" ++ quote_body r false
      else if N.eqb c 9 then str "\t" ++ quote_body r false
      else if N.ltb c 32 then escape_u c ++ quote_body r false
      else if is_high c then
        match r with
        | d :: _ => if is_low d then c :: quote_body r true
                    else escape_u c ++ quote_body r false
        | [] => escape_u c
        end
      else if is_low c then
        (if prev_high then [c] else escape_u c) ++ quote_body r false
      else c :: quote_body r false
  end.

Definition quote (s : jsstring) : jsstring := [34%N] ++ quote_body s false ++ [34%N].

Definition is_finite (x : number) : bool :=
  match x with S754_zero _ | S754_finite _ _ _ => true | _ => false end.

(** [JSON.stringify(v)], as [localStorage.setItem] stores it. *)
Fixpoint JSON_stringify (v : JSValue) : jsstring :=
  match v with
  | VUndefined => str "undefined"
  | VNull => str "null"
  | VBool b => if b then str "true" else str "false"
  | VNum x => if is_finite x then Number_toString x else str "null"
  | VStr s => quote s
  | VArr _ l =>
      let fix elems (l : list JSValue) (first : bool) : jsstring :=
        match l with
        | [] => []
        | x :: r =>
            (if first then [] else str ",") ++
            match x with
            | VUndefined => str "null"
            | _ => JSON_stringify x
            end ++ elems r false
        end in
      str "[" ++ elems l true ++ str "]"
  | VObj _ ps =>
      let fix members (ps : Props) (first : bool) : jsstring :=
        match ps with
        | [] => []
        | (k, x) :: r =>
            match x with
            | VUndefined => members r first
            | _ => (if first then [] else str ",") ++
                   quote k ++ str ":" ++ JSON_stringify x ++ members r false
            end
        end in
      str "{" ++ members ps true ++ str "}"
  end.

Lemma lower_case_keeps_length (s : jsstring) : toLowerCase s = [] -> s = [].
Proof. destruct s; [reflexivity | discriminate]. Qed.

End Engine.

#[global] Instance engine : Runtime := {|
  trim := Engine.trim;
  toLowerCase := Engine.toLowerCase;
  Number_toString := Engine.Number_toString;
  JSON_parse := Engine.JSON_parse;
  JSON_stringify := Engine.JSON_stringify;
  toLowerCase_nonempty := Engine.lower_case_keeps_length
|}.

(** ** Vocabulary of the properties *)

(** [preserves P m]: if [P] holds before [m] runs it holds after, whether [m]
    returns or throws. *)
Definition preserves (P : State -> Prop) {A} (m : M A) : Prop :=
  forall s, P s -> P (exec m s).

(** [isPlaying] has the value [b]; [playing]: it is set. *)
Definition flag_is (b : bool) (s : State) : Prop := isPlaying s = b.
Definition playing : State -> Prop := flag_is true.

(** The events whose handler has an assignment to [isPlaying] on its path:
    a key press, and those that call [playListItem]. *)
Definition writes_isPlaying (ev : Event) : bool :=
  match ev with
  | TimerFires | Keydown _ | ClickItem _ | CallPlayIndex _ => true
  | _ => false
  end.

(** Hls.js is loaded and reports itself supported. *)
Definition hls_ready (env : Env) : bool :=
  match env_hls env with Some true => true | _ => false end.

(** The calls made on Hls.js when a URL is handed to it. *)
Definition hls_attach (url : JSValue) : list Call :=
  [HlsNew; HlsLoadSource url; HlsAttachMedia; HlsOnManifestParsed].

(** The spec's wording of source resolution: the candidates are tried in
    order, the first non-empty one wins, and the empty string is the answer
    when there is none. *)
Definition first_non_empty (candidates : list JSValue) : JSValue :=
  match find truthy candidates with
  | Some v => v
  | None => VStr []
  end.

Definition field_value (ps : Props) (k : jsstring) : JSValue :=
  match lookup k ps with Some v => v | None => VUndefined end.

(** A field that is absent or holds an empty (falsy) value. *)
Definition field_empty (item : JSValue) (k : jsstring) : bool :=
  match get_field item k with
  | Ok v => negb (truthy v)
  | Throw _ => false
  end.

(** A value that converts to text: no object with a [toString] of its own
    in it. *)
Fixpoint printable (v : JSValue) : bool :=
  match v with
  | VArr _ l =>
      (fix all (l : list JSValue) : bool :=
         match l with
         | [] => true
         | x :: r => printable x && all r
         end) l
  | VObj _ ps =>
      match lookup (str "toString") ps with
      | None => true
      | Some _ => false
      end
  | _ => true
  end.

(** [v.k], when it is truthy, converts to text. *)
Definition field_printable (v : JSValue) (k : jsstring) : bool :=
  match get_field v k with
  | Ok x => printable (js_or x (VStr []))
  | Throw _ => true
  end.

(** A track can be rendered unless it is [undefined] or [null], or its title
    or logo does not convert to text. *)
Definition renderable (item : JSValue) : bool :=
  match item with
  | VUndefined | VNull => false
  | _ => field_printable item (str "title") && field_printable item (str "logo")
  end.

(** The spec's "has length 0": [v.length === 0]. *)
Definition has_length_zero (v : JSValue) : bool :=
  match v with
  | VArr _ l => match l with [] => true | _ :: _ => false end
  | VStr s => match s with [] => true | _ :: _ => false end
  | VObj _ ps =>
      match lookup (str "length") ps with
      | Some (VNum x) => num_is_zero x
      | _ => false
      end
  | _ => false
  end.

(** The calls [add(x1); ...; add(xN)], one after the other. *)
Definition add_calls (items : list JSValue) : list Event := map CallAdd items.

(** [Subseq l1 l2]: [l1] is [l2] with some elements left out, the others in
    their original order. *)
Inductive Subseq {A : Type} : list A -> list A -> Prop :=
| Subseq_nil : Subseq [] []
| Subseq_keep x l1 l2 : Subseq l1 l2 -> Subseq (x :: l1) (x :: l2)
| Subseq_skip x l1 l2 : Subseq l1 l2 -> Subseq l1 (x :: l2).

(** The positions of [l], counted from [i], whose element satisfies [g]. *)
Fixpoint positions_from {A} (g : A -> bool) (l : list A) (i : nat) : list nat :=
  match l with
  | [] => []
  | x :: r => if g x then i :: positions_from g r (S i) else positions_from g r (S i)
  end.

Definition positions {A} (g : A -> bool) (l : list A) : list nat :=
  positions_from g l 0.

(** A test that returned [true]. *)
Definition holds {A} (f : A -> Res bool) (x : A) : bool :=
  match f x with Ok true => true | _ => false end.

(** The spec's wording of the filter.  A track has a title when its [title]
    is a non-empty string. *)
Definition title_of (it : JSValue) : option jsstring :=
  match it with
  | VObj _ ps =>
      match lookup (str "title") ps with
      | Some (VStr (c :: t)) => Some (c :: t)
      | _ => None
      end
  | _ => None
  end.

Definition matches_query {rt : Runtime} (query : jsstring) (it : JSValue) : bool :=
  match title_of it with
  | Some t => JSString.includes (toLowerCase t) (toLowerCase (trim query))
  | None => false
  end.

(** A title is text: absent, empty (falsy), or a string. *)
Definition title_is_text (it : JSValue) : bool :=
  match it with
  | VObj _ ps =>
      match lookup (str "title") ps with
      | Some (VStr _) | None => true
      | Some t => negb (truthy t)
      end
  | _ => true
  end.

(** No object is listed twice. *)
Definition distinct_objects (l : list JSValue) : Prop :=
  forall i j a ps qs,
    nth_error l i = Some (VObj a ps) -> nth_error l j = Some (VObj a qs) -> i = j.

(** ** Sample pages, tracks and states *)

Module Sample.

(** A page with every element the script looks for, Hls.js as given. *)
Definition page (hls : option bool) : Env :=
  {| env_hls := hls; env_root_by_id := true; env_root_by_class := false;
     env_player_title := true; env_theme_toggle := true;
     env_search_input := true; env_modal := true |}.

Definition track (id : ObjId) (title url : string) : JSValue :=
  VObj id [ (str "title", VStr (str title)); (str "stream_url", VStr (str url)) ].

(** The two tracks of the spec's example scenario. *)
Definition alpha : JSValue := track 1 "Alpha" "a.mp4".
Definition beta_show : JSValue := track 2 "Beta Show" "b.m3u8".

(** A manifest URL that carries a query string. *)
Definition tokened : JSValue := track 3 "Gamma" "https://cdn.example/live.m3u8?token=1".

(** A track with no source at all, and one with the older field only. *)
Definition silent : JSValue := VObj 4 [ (str "title", VStr (str "Silent")) ].
Definition legacy : JSValue :=
  VObj 5 [ (str "title", VStr (str "Legacy")); (str "stream_url", VStr []);
           (str "stream", VStr (str "d.mp3")) ].

Definition state_of (l : list JSValue) (saved : option jsstring) : State :=
  {| playlist := VArr 0 l; isPlaying := false; next_id := 10;
     ls_playlist := saved; ls_theme := Some (str "dark");
     root := Untouched; player_src := None; player_title := None;
     data_theme := Some (str "dark"); toggle_text := Some ICON_DARK;
     hls := []; quality_options := []; quality_listeners := [];
     calls := [] |}.

(** A JSON text written with ['] for the double quote. *)
Definition json (s : string) : jsstring :=
  map (fun c => if N.eqb c 39 then 34%N else c) (str s).

Definition scenario_text : jsstring :=
  json "[{'title':'Alpha','stream_url':'a.mp4'},{'title':'Beta Show','stream_url':'b.m3u8'}]".

End Sample.

(** ** onceWrapper

    [onceWrapper()] returns a function that shares one variable, [called],
    among all its calls; each call returns a runner.  A runner made while
    [called] was [true] holds the [context] and the [fn] it was made with and
    forgets [fn] once it has returned; a runner made later does nothing.
    [fn] is a function of its context and arguments that returns or throws
    (and does not call the runner itself); a missing [fn] is any falsy
    value; the [undefined] a runner answers when it does not call [fn] is
    [None]. *)

Module Once.

Section Once.

Variables Ctx Args R : Type.

Definition Fn : Type := Ctx -> Args -> Res R.

Inductive Runner : Type :=
| Guarded (context : Ctx) (fn : option Fn)
| Inert.

(** [let called = true] *)
Definition onceWrapper : bool := true.

(** The function [onceWrapper()] returns, [called] being passed in and
    out. *)
Definition wrap (context : Ctx) (fn : option Fn) (called : bool)
  : Runner * bool :=
  ((if called then Guarded context fn else Inert), false).

(** Calling a runner: what it returns or throws, and the runner
    afterwards. *)
Definition invoke (r : Runner) (arguments : Args) : Res (option R) * Runner :=
  match r with
  | Guarded context (Some fn) =>
      match fn context arguments with
      | Ok res => (Ok (Some res), Guarded context None)
      | Throw e => (Throw e, r)
      end
  | Guarded _ None => (Ok None, r)
  | Inert => (Ok None, r)
  end.

(** Whether calling the runner applies [fn]. *)
Definition applies (r : Runner) : bool :=
  match r with
  | Guarded _ (Some _) => true
  | _ => false
  end.

(** The runner after a series of calls. *)
Fixpoint invoke_all (r : Runner) (calls : list Args) : Runner :=
  match calls with
  | [] => r
  | a :: rest => invoke_all (snd (invoke r a)) rest
  end.

End Once.

End Once.

(** ** Vocabulary of the further properties *)

(** The items the playlist container shows. *)
Definition items (r : RootContent) : list Li :=
  match r with
  | Items lis => lis
  | _ => []
  end.

(** The stored theme is the theme the page shows, and the toggle, where there
    is one, bears its icon. *)
Definition theme_synced (env : Env) (s : State) : Prop :=
  exists t, t <> [] /\ data_theme s = Some t /\ ls_theme s = Some t /\
            (env_theme_toggle env = true -> toggle_text s = Some (theme_icon t)).

(** The playlist is the array [id], holding [l] and possibly more after
    it. *)
Definition playlist_extends (id : ObjId) (l : list JSValue) (s : State) : Prop :=
  exists more, playlist s = VArr id (l ++ more).

(** The Hls instances created so far were given the sources [srcs], in this
    order. *)
Definition hls_sources (s : State) : list JSValue := map hls_source (hls s).

Definition is_load (ev : Event) : bool :=
  match ev with DOMContentLoaded => true | _ => false end.

Definition is_add (ev : Event) : bool :=
  match ev with CallAdd _ => true | _ => false end.

Definition is_theme_toggle (ev : Event) : bool :=
  match ev with ClickThemeToggle => true | _ => false end.

(** The tracks handed to [add] by a sequence of events, in call order. *)
Definition added_items (evs : list Event) : list JSValue :=
  flat_map (fun ev => match ev with CallAdd item => [item] | _ => [] end) evs.

(** The level the script last wrote to the [n]-th Hls instance. *)
Definition current_level (s : State) (n : nat) : option Z :=
  match nth_error (hls s) n with
  | Some h => hls_currentLevel h
  | None => None
  end.

(** The instances and the listeners of [s] are those of an earlier state,
    whose sources and listeners were [base_h] and [base_l], and possibly
    more after them. *)
Definition accumulated (base_h : list JSValue) (base_l : list QualityListener)
    (s : State) : Prop :=
  (exists more, hls_sources s = base_h ++ more) /\
  (exists more, quality_listeners s = base_l ++ more).

(** ** More sample pages, tracks and states *)

Module Fixture.

(** A page whose playlist container is found by its class only. *)
Definition page_by_class : Env :=
  {| env_hls := None; env_root_by_id := false; env_root_by_class := true;
     env_player_title := true; env_theme_toggle := true;
     env_search_input := true; env_modal := true |}.

Definition scenario : State :=
  Sample.state_of [Sample.alpha; Sample.beta_show] None.

(** The scenario's playlist, rendered. *)
Definition rendered : State :=
  exec (buildPlaylistUI (rt := engine) (Sample.page (Some true))) scenario.

(** The same once "Beta Show" plays through Hls.js. *)
Definition streaming : State :=
  exec (playListItem (rt := engine) (Sample.page (Some true)) 1) rendered.

(** A level of a manifest. *)
Definition level (height bitrate : nat) : JSValue :=
  VObj 0 [ (str "height", VNum (num_of_nat height));
           (str "bitrate", VNum (num_of_nat bitrate)) ].

(** A track with a source and no title. *)
Definition untitled : JSValue := VObj 6 [ (str "stream_url", VStr (str "e.mp4")) ].

(** A track whose logo does not convert to text. *)
Definition odd_logo : JSValue :=
  VObj 8 [ (str "title", VStr (str "Beta Two"));
           (str "logo", VObj 9 [ (str "toString", VNull) ]) ].

(** The tree the scenario's text denotes. *)
Definition scenario_json : list JSON :=
  [ J_object [ (str "title", J_string (str "Alpha"));
               (str "stream_url", J_string (str "a.mp4")) ];
    J_object [ (str "title", J_string (str "Beta Show"));
               (str "stream_url", J_string (str "b.m3u8")) ] ].

End Fixture.

(** * Properties *)

(** ** Strings *)

Module JSStringFacts.
Import JSString.

Lemma eqb_eq (a b : t) : eqb a b = true <-> a = b.
Proof.
  revert b; induction a as [|x a IH]; intros [|y b]; simpl;
    try (split; [discriminate | congruence]); try tauto.
  rewrite andb_true_iff, N.eqb_eq, IH. split.
  - intros [-> ->]; reflexivity.
  - intros E; injection E; auto.
Qed.

Lemma eqb_refl (a : t) : eqb a a = true.
Proof. apply eqb_eq; reflexivity. Qed.

Lemma startsWith_app (s p : t) :
  startsWith s p = true <-> exists r, s = p ++ r.
Proof.
  revert s; induction p as [|y p IH]; intros s; simpl.
  - split; [intros _; exists s; reflexivity | reflexivity].
  - destruct s as [|x s].
    + split; [discriminate | intros [r E]; discriminate].
    + rewrite andb_true_iff, N.eqb_eq, IH. split.
      * intros [-> [r ->]]; exists r; reflexivity.
      * intros [r E]; injection E as -> ->; split; [reflexivity | exists r; reflexivity].
Qed.

(** [includes] is the substring test. *)
Lemma includes_app (s p : t) :
  includes s p = true <-> exists a b, s = a ++ p ++ b.
Proof.
  induction s as [|x s IH]; simpl.
  - rewrite orb_false_r, startsWith_app. split.
    + intros [r E]; exists [], r; exact E.
    + intros [a [b E]]. destruct a; simpl in E.
      * exists b; exact E.
      * discriminate.
  - rewrite orb_true_iff, IH. split.
    + intros [H | [a [b ->]]].
      * apply (startsWith_app (x :: s) p) in H. destruct H as [r E].
        exists [], r; exact E.
      * exists (x :: a), b; reflexivity.
    + intros [a [b E]]. destruct a as [|y a]; simpl in E.
      * left. apply (startsWith_app (x :: s) p). exists b; exact E.
      * right. injection E as _ ->. exists a, b; reflexivity.
Qed.

Lemma endsWith_app (s p : t) :
  endsWith s p = true <-> exists a, s = a ++ p.
Proof.
  unfold endsWith. rewrite startsWith_app. split.
  - intros [r E]. exists (rev r).
    rewrite <- (rev_involutive s), E, rev_app_distr, rev_involutive; reflexivity.
  - intros [a ->]. exists (rev a). apply rev_app_distr.
Qed.

(** A string that ends in [p] includes [p]. *)
Lemma endsWith_includes (s p : t) :
  endsWith s p = true -> includes s p = true.
Proof.
  rewrite endsWith_app, includes_app. intros [a ->].
  exists a, []. rewrite app_nil_r; reflexivity.
Qed.

End JSStringFacts.

(** ** What a handler leaves unchanged

    [preserves P m]: if [P] holds before [m] runs it holds after, whether [m]
    returns or throws. *)

Section Preserves.

Variable P : State -> Prop.

Lemma preserves_ret A (a : A) : preserves P (ret a).
Proof. intros s H; exact H. Qed.

Lemma preserves_lift A (r : Res A) : preserves P (lift r).
Proof. intros s H; exact H. Qed.

Lemma preserves_get : preserves P get.
Proof. intros s H; exact H. Qed.

Lemma preserves_modify (f : State -> State) :
  (forall s, P s -> P (f s)) -> preserves P (modify f).
Proof. intros Hf s H; apply Hf, H. Qed.

Lemma preserves_bind A B (m : M A) (f : A -> M B) :
  preserves P m -> (forall a, preserves P (f a)) -> preserves P (bind m f).
Proof.
  intros Hm Hf s H. unfold exec, bind.
  specialize (Hm s H). unfold exec in Hm.
  destruct (m s) as [[a | e] s']; simpl in *.
  - apply Hf, Hm.
  - exact Hm.
Qed.

Lemma preserves_try_catch A (m h : M A) :
  preserves P m -> preserves P h -> preserves P (try_catch m h).
Proof.
  intros Hm Hh s H. unfold exec, try_catch.
  specialize (Hm s H). unfold exec in Hm.
  destruct (m s) as [[a | e] s']; simpl in *.
  - exact Hm.
  - apply Hh, Hm.
Qed.

Lemma preserves_when (b : bool) (m : M unit) :
  preserves P m -> preserves P (when b m).
Proof. intros Hm; destruct b; [exact Hm | apply preserves_ret]. Qed.

Lemma preserves_if A (b : bool) (m1 m2 : M A) :
  preserves P m1 -> preserves P m2 -> preserves P (if b then m1 else m2).
Proof. intros H1 H2; destruct b; assumption. Qed.

End Preserves.

(** ** Running the monad *)

Lemma bind_get A (f : State -> M A) s : bind get f s = f s s.
Proof. reflexivity. Qed.

Lemma bind_ret A B (a : A) (f : A -> M B) s : bind (ret a) f s = f a s.
Proof. reflexivity. Qed.

Lemma bind_lift_Ok A B (a : A) (f : A -> M B) s : bind (lift (Ok a)) f s = f a s.
Proof. reflexivity. Qed.

Lemma bind_lift_Throw A B e (f : A -> M B) s :
  bind (lift (Throw e)) f s = (Throw e, s).
Proof. reflexivity. Qed.

Lemma bind_modify A g (f : unit -> M A) s : bind (modify g) f s = f tt (g s).
Proof. reflexivity. Qed.

Lemma bind_assoc A B C (m : M A) (f : A -> M B) (g : B -> M C) s :
  bind (bind m f) g s = bind m (fun a => bind (f a) g) s.
Proof. unfold bind. destruct (m s) as [[a|e] s']; reflexivity. Qed.

Lemma bind_Ok A B (m : M A) (f : A -> M B) s a s' :
  m s = (Ok a, s') -> bind m f s = f a s'.
Proof. intros E; unfold bind; rewrite E; reflexivity. Qed.

Lemma bind_Throw A B (m : M A) (f : A -> M B) s e s' :
  m s = (Throw e, s') -> bind m f s = (Throw e, s').
Proof. intros E; unfold bind; rewrite E; reflexivity. Qed.

Lemma modify_run g s : modify g s = (Ok tt, g s).
Proof. reflexivity. Qed.

(** ** Property access never fails on a truthy value *)

Lemma get_field_truthy (v : JSValue) (k : jsstring) :
  truthy v = true -> exists x, get_field v k = Ok x.
Proof. destruct v; simpl; try discriminate; eauto. Qed.

Lemma get_length_truthy (v : JSValue) :
  truthy v = true -> exists x, get_length v = Ok x.
Proof. destruct v; simpl; try discriminate; eauto. Qed.

Lemma get_elem_array_in_range id l (i : Z) item :
  (0 <= i)%Z -> nth_error l (Z.to_nat i) = Some item ->
  get_elem (VArr id l) i = Ok item.
Proof.
  intros Hi Hn. unfold get_elem.
  destruct (Z.ltb_spec i 0); [lia|]. rewrite Hn; reflexivity.
Qed.

Lemma get_elem_array_out_of_range id l (i : Z) :
  (i < 0 \/ Z.of_nat (length l) <= i)%Z ->
  get_elem (VArr id l) i = Ok VUndefined.
Proof.
  intros Hi. unfold get_elem.
  destruct (Z.ltb_spec i 0); [reflexivity|].
  destruct (nth_error l (Z.to_nat i)) eqn:E; [|reflexivity].
  assert (Z.to_nat i < length l)%nat by (apply nth_error_Some; congruence).
  lia.
Qed.

(** ** Conversion to text *)

(** Induction on values, through the lists of an array and of an object. *)
Lemma JSValue_nested_ind (P : JSValue -> Prop) :
  P VUndefined -> P VNull -> (forall b, P (VBool b)) -> (forall x, P (VNum x)) ->
  (forall s, P (VStr s)) ->
  (forall id l, Forall P l -> P (VArr id l)) ->
  (forall id ps, Forall (fun kv => P (snd kv)) ps -> P (VObj id ps)) ->
  forall v, P v.
Proof.
  intros Hu Hn Hb Hx Hs Ha Ho.
  fix IH 1. intros [| |b|x|s|id l|id ps].
  - exact Hu.
  - exact Hn.
  - apply Hb.
  - apply Hx.
  - apply Hs.
  - apply Ha. induction l as [|y l IHl]; constructor; [apply IH | exact IHl].
  - apply Ho. induction ps as [|[k y] ps IHps]; constructor; [apply IH | exact IHps].
Qed.

(** A printable value converts to text, whatever the engine. *)
Lemma to_string_printable {rt : Runtime} v :
  printable v = true -> exists t, to_string v = Ok t.
Proof.
  induction v as [| |b|x|s|id l IHl|id ps _] using JSValue_nested_ind;
    intros H; simpl; eauto.
  - simpl in H.
    assert (forall first, exists t,
      (fix join (l : list JSValue) (first : bool) : Res jsstring :=
         match l with
         | [] => Ok []
         | x :: r =>
             res_bind (match x with
                       | VUndefined | VNull => Ok []
                       | _ => to_string x
                       end) (fun sx =>
             res_bind (join r false) (fun sr =>
             Ok ((if first then [] else str ",") ++ sx ++ sr)))
         end) l first = Ok t) as Hjoin.
    { induction l as [|y l IH]; intros first; [eauto|].
      apply andb_true_iff in H. destruct H as [Hy Hl].
      inversion IHl as [|? ? Py Pl]; subst.
      destruct (Py Hy) as [ty Ety].
      destruct (IH Pl Hl false) as [tl Etl].
      rewrite Etl.
      destruct y; try rewrite Ety; simpl; eauto. }
    apply Hjoin.
  - simpl in H. destruct (lookup (str "toString") ps); [discriminate | eauto].
Qed.

Lemma to_string_text {rt : Runtime} (s : jsstring) : to_string (VStr s) = Ok s.
Proof. reflexivity. Qed.

(** ** playListItem *)

(** What [playListItem] does with a truthy track whose title converts to
    text: everything it changes. *)
Lemma playListItem_plays {rt : Runtime} env s id l index item url adaptive src :
  playlist s = VArr id l -> (0 <= index)%Z ->
  nth_error l (Z.to_nat index) = Some item -> truthy item = true ->
  field_printable item (str "title") = true ->
  resolve_url item = Ok url -> use_hls env url = Ok adaptive ->
  (adaptive = false -> to_string url = Ok src) ->
  exists s',
    playListItem env index s = (Ok tt, s') /\
    playlist s' = playlist s /\
    isPlaying s' = true /\
    root s' = mark_active index (root s) /\
    player_src s' = (if adaptive then player_src s else Some src) /\
    calls s' = calls s ++ (if adaptive then hls_attach url else []) ++ [PlyrPlay].
Proof.
  intros Hp Hi Hn Ht Hpr Hu Hh Hsrc.
  destruct (get_field_truthy item (str "title") Ht) as [t Htitle].
  unfold field_printable in Hpr. rewrite Htitle in Hpr.
  destruct (to_string_printable _ Hpr) as [text Htext].
  unfold playListItem. rewrite bind_get, Hp.
  rewrite (get_elem_array_in_range id l Hi Hn), bind_lift_Ok, Ht.
  cbn [negb]. rewrite bind_modify, Hu, bind_lift_Ok, Hh, bind_lift_Ok.
  destruct adaptive; [|rewrite (Hsrc eq_refl)];
    destruct (env_player_title env);
    repeat (rewrite ?bind_assoc, ?bind_modify, ?bind_ret, ?Htitle, ?Htext,
              ?bind_lift_Ok);
    rewrite modify_run; eexists; split; try reflexivity; simpl;
    repeat split; try reflexivity; try exact Hp;
    repeat rewrite <- app_assoc; reflexivity.
Qed.

(** The same without a word on the title: the source is dealt with before
    the title label, so it is dealt with even if writing the label throws.
    [rest] is the call that starts playback, missing in that case only. *)
Lemma playListItem_dispatch {rt : Runtime} env s id l index item url adaptive src :
  playlist s = VArr id l -> (0 <= index)%Z ->
  nth_error l (Z.to_nat index) = Some item -> truthy item = true ->
  resolve_url item = Ok url -> use_hls env url = Ok adaptive ->
  (adaptive = false -> to_string url = Ok src) ->
  exists r s' rest,
    playListItem env index s = (r, s') /\
    (rest = [] \/ rest = [PlyrPlay]) /\
    player_src s' = (if adaptive then player_src s else Some src) /\
    calls s' = calls s ++ (if adaptive then hls_attach url else []) ++ rest.
Proof.
  intros Hp Hi Hn Ht Hu Hh Hsrc.
  destruct (get_field_truthy item (str "title") Ht) as [t Htitle].
  unfold playListItem. rewrite bind_get, Hp.
  rewrite (get_elem_array_in_range id l Hi Hn), bind_lift_Ok, Ht.
  cbn [negb]. rewrite bind_modify, Hu, bind_lift_Ok, Hh, bind_lift_Ok.
  destruct adaptive; [|rewrite (Hsrc eq_refl)];
    destruct (env_player_title env);
    repeat (rewrite ?bind_assoc, ?bind_modify, ?bind_ret, ?Htitle, ?bind_lift_Ok);
    try destruct (to_string (js_or t (VStr []))) as [text|e];
    repeat (rewrite ?bind_assoc, ?bind_modify, ?bind_ret, ?bind_lift_Ok,
              ?bind_lift_Throw, ?modify_run);
    first [ exists (Ok tt); eexists; exists [PlyrPlay];
            split; [reflexivity|]; split; [auto|]; simpl;
            split; [reflexivity|]; repeat rewrite <- app_assoc; reflexivity
          | eexists; eexists; exists [];
            split; [reflexivity|]; split; [auto|]; simpl;
            split; [reflexivity|]; repeat rewrite <- app_assoc;
            rewrite ?app_nil_r; reflexivity ].
Qed.

(** C3.  For an array playlist and an integer index below 0 or at or beyond
    the length, [playListItem] returns normally and leaves the whole state
    as it was: playlist, [isPlaying], player source, rendered items and
    their [active] marks, storage and calls. *)
Theorem playListItem_out_of_range_noop {rt : Runtime} env s id l index :
  playlist s = VArr id l ->
  (index < 0 \/ Z.of_nat (length l) <= index)%Z ->
  playListItem env index s = (Ok tt, s).
Proof.
  intros Hp Hi. unfold playListItem.
  rewrite bind_get, Hp, (get_elem_array_out_of_range id l Hi).
  reflexivity.
Qed.

Lemma use_hls_string env (u : jsstring) :
  use_hls env (VStr u) = Ok (hls_ready env && JSString.includes u (str ".m3u8")).
Proof.
  unfold use_hls, hls_ready.
  destruct (env_hls env) as [[|]|]; reflexivity.
Qed.

(** C1, as the script has it.  For an in-range index whose track resolves to
    a URL string: when Hls.js is loaded, reports itself supported and the URL
    contains ['.m3u8'] anywhere, the URL is handed to a new Hls instance
    (loadSource, attachMedia) and the player's [src] is left alone; in every
    other case the URL is assigned to the player's [src] and Hls.js is not
    called.  The only other call made is the one that starts playback
    ([rest]). *)
Theorem playListItem_source_dispatch {rt : Runtime} env s id l index item u :
  playlist s = VArr id l -> (0 <= index)%Z ->
  nth_error l (Z.to_nat index) = Some item -> truthy item = true ->
  resolve_url item = Ok (VStr u) ->
  exists r s' rest,
    playListItem env index s = (r, s') /\
    (rest = [] \/ rest = [PlyrPlay]) /\
    if hls_ready env && JSString.includes u (str ".m3u8")
    then calls s' = calls s ++ hls_attach (VStr u) ++ rest /\
         player_src s' = player_src s
    else player_src s' = Some u /\
         calls s' = calls s ++ rest.
Proof.
  intros Hp Hi Hn Ht Hu.
  destruct (playListItem_dispatch env s Hp Hi Hn Ht Hu (use_hls_string env u)
              (src := u) (fun _ => eq_refl))
    as [r [s' [rest [Hrun [Hrest [Hsrc Hcalls]]]]]].
  exists r, s', rest. split; [exact Hrun|]. split; [exact Hrest|].
  destruct (hls_ready env && JSString.includes u (str ".m3u8")); auto.
Qed.

(** A URL that ends in ['.m3u8'] contains it, so with Hls.js loaded and
    supported it is handed to Hls.js. *)
Corollary playListItem_manifest_suffix {rt : Runtime} env s id l index item u :
  playlist s = VArr id l -> (0 <= index)%Z ->
  nth_error l (Z.to_nat index) = Some item -> truthy item = true ->
  resolve_url item = Ok (VStr u) ->
  hls_ready env = true -> JSString.endsWith u (str ".m3u8") = true ->
  exists r s' rest,
    playListItem env index s = (r, s') /\
    calls s' = calls s ++ hls_attach (VStr u) ++ rest /\
    player_src s' = player_src s.
Proof.
  intros Hp Hi Hn Ht Hu Hr He.
  assert (Hh : use_hls env (VStr u) = Ok true).
  { rewrite use_hls_string, Hr, (JSStringFacts.endsWith_includes _ _ He).
    reflexivity. }
  destruct (playListItem_dispatch env s Hp Hi Hn Ht Hu Hh (src := u)
              (fun _ => eq_refl))
    as [r [s' [rest [Hrun [_ [Hsrc Hcalls]]]]]].
  exists r, s', rest; auto.
Qed.

Lemma resolve_url_object oid ps :
  resolve_url (VObj oid ps) =
  Ok (first_non_empty [field_value ps (str "stream_url");
                       field_value ps (str "stream")]).
Proof.
  unfold resolve_url, first_non_empty, field_value, js_or; simpl.
  destruct (lookup (str "stream_url") ps) as [a|],
           (lookup (str "stream") ps) as [b|]; simpl;
    try destruct (truthy a); try destruct (truthy b); reflexivity.
Qed.

(** C7.  For a track object, the URL [playListItem] plays is the first
    non-empty of [stream_url] and [stream], in that order, and the empty
    string when both are absent or empty: that URL is what is handed to
    Hls.js, or assigned (as text) to the player's [src]. *)
Theorem playListItem_resolves_source {rt : Runtime} env s aid l index oid ps :
  playlist s = VArr aid l -> (0 <= index)%Z ->
  nth_error l (Z.to_nat index) = Some (VObj oid ps) ->
  let url := first_non_empty [field_value ps (str "stream_url");
                              field_value ps (str "stream")] in
  resolve_url (VObj oid ps) = Ok url /\
  forall adaptive src, use_hls env url = Ok adaptive -> to_string url = Ok src ->
    exists r s' rest,
      playListItem env index s = (r, s') /\
      (rest = [] \/ rest = [PlyrPlay]) /\
      player_src s' = (if adaptive then player_src s else Some src) /\
      calls s' = calls s ++ (if adaptive then hls_attach url else []) ++ rest.
Proof.
  intros Hp Hi Hn url. split; [apply resolve_url_object|].
  intros adaptive src Hh Hsrc.
  exact (playListItem_dispatch env s Hp Hi Hn eq_refl
           (resolve_url_object oid ps) Hh (fun _ => Hsrc)).
Qed.

(** C10.  A track with neither a [stream_url] nor a [stream] (or both
    empty), and a title that converts to text, is played all the same: the
    empty string is assigned to the player's [src], Hls.js is not called
    whatever the page has, playback is started and [isPlaying] becomes
    true. *)
Theorem playListItem_without_source {rt : Runtime} env s id l index item :
  playlist s = VArr id l -> (0 <= index)%Z ->
  nth_error l (Z.to_nat index) = Some item -> truthy item = true ->
  field_printable item (str "title") = true ->
  field_empty item (str "stream_url") = true ->
  field_empty item (str "stream") = true ->
  exists s',
    playListItem env index s = (Ok tt, s') /\
    player_src s' = Some [] /\
    calls s' = calls s ++ [PlyrPlay] /\
    isPlaying s' = true.
Proof.
  intros Hp Hi Hn Ht Hpr H1 H2.
  assert (Hu : resolve_url item = Ok (VStr [])).
  { unfold field_empty in H1, H2. unfold resolve_url, js_or.
    destruct (get_field item (str "stream_url")) as [a|]; [|discriminate].
    destruct (get_field item (str "stream")) as [b|]; [|discriminate].
    simpl. apply negb_true_iff in H1, H2. rewrite H1, H2. reflexivity. }
  assert (Hh : use_hls env (VStr []) = Ok false).
  { rewrite use_hls_string. apply f_equal, andb_false_r. }
  destruct (playListItem_plays env s Hp Hi Hn Ht Hpr Hu Hh (src := [])
              (fun _ => eq_refl))
    as [s' [Hrun [_ [Hplay [_ [Hsrc Hcalls]]]]]].
  exists s'; auto.
Qed.

(** ** buildPlaylistUI *)

(** [buildPlaylistUI] changes nothing but the playlist container. *)
Lemma buildPlaylistUI_frame {rt : Runtime} env s :
  exists r s', buildPlaylistUI env s = (r, s') /\
               (s' = s \/ exists rc, s' = set_root rc s).
Proof.
  unfold buildPlaylistUI.
  destruct (negb _); [exists (Ok tt), s; auto|].
  rewrite bind_get.
  destruct (playlist s) as [| | | | |a [|x l]|] eqn:E;
    try (eexists; eexists; split; [reflexivity | right; eexists; reflexivity]).
  destruct (mapiM build_item (x :: l) 0) as [lis|e] eqn:Em.
  - rewrite bind_lift_Ok.
    eexists; eexists; split; [reflexivity | right; eexists; reflexivity].
  - rewrite bind_lift_Throw. eexists; eexists; split; [reflexivity | auto].
Qed.

Lemma build_item_renderable {rt : Runtime} item i :
  renderable item = true -> exists li, build_item item i = Ok li.
Proof.
  intros H. unfold build_item.
  assert (Ht : truthy item = true \/ (item <> VUndefined /\ item <> VNull))
    by (right; destruct item; split; discriminate).
  assert (Hf : forall k, exists x, get_field item k = Ok x)
    by (intros k; destruct item; simpl; try discriminate; eauto).
  assert (Hp : field_printable item (str "title") = true /\
               field_printable item (str "logo") = true).
  { destruct item; try discriminate; apply andb_true_iff; exact H. }
  destruct Hp as [Hp1 Hp2]. unfold field_printable in Hp1, Hp2.
  destruct (Hf (str "title")) as [t Et], (Hf (str "logo")) as [lg Elg],
           (Hf (str "lang")) as [la Ela].
  rewrite Et in Hp1 |- *. rewrite Elg in Hp2 |- *. rewrite Ela. simpl.
  assert (Hsrc : exists src, to_string (js_or lg (VStr [])) = Ok src)
    by (apply to_string_printable, Hp2).
  assert (Halt : exists alt, to_string (js_or t (VStr (str "Untitled"))) = Ok alt).
  { apply to_string_printable. unfold js_or in *.
    destruct (truthy t); [exact Hp1 | reflexivity]. }
  destruct Hsrc as [src ->], Halt as [alt ->]. simpl. eauto.
Qed.

Lemma mapiM_build_item {rt : Runtime} l : forall i,
  forallb renderable l = true -> exists lis, mapiM build_item l i = Ok lis.
Proof.
  induction l as [|x l IH]; intros i H; simpl.
  - eauto.
  - simpl in H. apply andb_true_iff in H. destruct H as [Hx Hl].
    destruct (build_item_renderable x i Hx) as [li ->].
    destruct (IH (S i) Hl) as [lis ->]. simpl; eauto.
Qed.

(** [buildPlaylistUI] returns normally when the playlist is not an array,
    and when it is an array of tracks that can be rendered. *)
Lemma buildPlaylistUI_returns {rt : Runtime} env s :
  (forall a l, playlist s = VArr a l -> forallb renderable l = true) ->
  exists s', buildPlaylistUI env s = (Ok tt, s') /\
             (s' = s \/ exists rc, s' = set_root rc s).
Proof.
  intros H. unfold buildPlaylistUI.
  destruct (negb _); [exists s; auto|].
  rewrite bind_get.
  destruct (playlist s) as [| | | | |a [|x l]|] eqn:E;
    try (eexists; split; [reflexivity | right; eexists; reflexivity]).
  destruct (mapiM_build_item _ 0 (H _ _ eq_refl)) as [lis ->].
  rewrite bind_lift_Ok.
  eexists; split; [reflexivity | right; eexists; reflexivity].
Qed.

(** ** Loading the saved playlist *)

Lemma needs_fallback_spec v :
  needs_fallback v = Ok (negb (truthy v) || has_length_zero v).
Proof.
  destruct v as [| |b|x|s|a l|a ps]; unfold needs_fallback; simpl;
    repeat match goal with
           | |- context [match ?x with _ => _ end] => destruct x; simpl
           | |- context [if ?x then _ else _] => destruct x; simpl
           end; reflexivity.
Qed.

Lemma apply_fallback_run s :
  exists s',
    apply_fallback s = (Ok tt, s') /\
    playlist s' = (if negb (truthy (playlist s)) || has_length_zero (playlist s)
                   then demo_playlist (next_id s) else playlist s) /\
    isPlaying s' = isPlaying s /\ ls_playlist s' = ls_playlist s.
Proof.
  unfold apply_fallback.
  rewrite bind_get, needs_fallback_spec, bind_lift_Ok.
  destruct (negb (truthy (playlist s)) || has_length_zero (playlist s)).
  - eexists; split; [reflexivity | simpl; auto].
  - eexists; split; [reflexivity | auto].
Qed.

Lemma demo_playlist_renderable a b l :
  demo_playlist a = VArr b l -> forallb renderable l = true.
Proof. intros E; injection E as _ <-. reflexivity. Qed.

(** The rest of the handler, once the playlist variable has its final value. *)
Lemma load_tail {rt : Runtime} env s :
  (forall a l, playlist s = VArr a l -> forallb renderable l = true) ->
  exists s',
    (buildPlaylistUI env ;; modify (add_call (SetTimeout (PlayIndex 0) 50))) s
    = (Ok tt, s') /\ playlist s' = playlist s.
Proof.
  intros H.
  destruct (buildPlaylistUI_returns env s H) as [s1 [Hrun Hs1]].
  rewrite (bind_Ok _ _ _ Hrun), modify_run.
  eexists; split; [reflexivity|].
  destruct Hs1 as [-> | [rc ->]]; reflexivity.
Qed.

Lemma load_saved_malformed {rt : Runtime} s text :
  ls_playlist s = Some text -> JSON_parse text = None ->
  (text <> [] \/ exists a, playlist s = VArr a []) ->
  exists s1 a, load_saved s = (Ok tt, s1) /\ playlist s1 = VArr a [].
Proof.
  intros Hls Hparse Hcase.
  unfold load_saved. rewrite bind_get, Hls.
  destruct text as [|c text].
  - destruct Hcase as [Hc | [a Ha]]; [congruence|].
    exists s, a. split; [reflexivity | exact Ha].
  - unfold try_catch, bind, parse. rewrite Hparse. cbn.
    eexists; eexists; split; reflexivity.
Qed.

(** C2.  When the saved playlist text does not parse, the DOMContentLoaded
    handler returns normally: the SyntaxError is caught, the playlist is an
    empty array once the saved text has been dealt with, and it is the
    built-in pair of demo tracks when the handler is done.  (An empty saved
    text is not even parsed and leaves the playlist as it was, which is the
    empty array the script starts with.) *)
Theorem load_malformed_falls_back {rt : Runtime} env s text :
  ls_playlist s = Some text -> JSON_parse text = None ->
  (text <> [] \/ exists a, playlist s = VArr a []) ->
  (exists a, playlist (exec load_saved s) = VArr a []) /\
  exists s' a, load env s = (Ok tt, s') /\ playlist s' = demo_playlist a.
Proof.
  intros Hls Hparse Hcase.
  destruct (load_saved_malformed s Hls Hparse Hcase) as [s1 [a [Hrun1 Hp1]]].
  split.
  - exists a. unfold exec. rewrite Hrun1. exact Hp1.
  - destruct (apply_fallback_run s1) as [s2 [Hrun2 [Hp2 _]]].
    rewrite Hp1 in Hp2. simpl in Hp2.
    destruct (load_tail env s2) as [s3 [Hrun3 Hp3]].
    { intros b l E. rewrite Hp2 in E. exact (demo_playlist_renderable E). }
    exists s3, (next_id s1). split.
    + unfold load. rewrite (bind_Ok _ _ _ Hrun1), (bind_Ok _ _ _ Hrun2).
      exact Hrun3.
    + rewrite Hp3. exact Hp2.
Qed.

Lemma alloc_not_array j n :
  (forall l, j <> J_array l) -> is_array (fst (alloc j n)) = false.
Proof.
  intros H. destruct j; try reflexivity.
  - exfalso; exact (H _ eq_refl).
  - simpl.
    match goal with |- context [let (_, _) := ?x in _] => destruct x end.
    reflexivity.
Qed.

Lemma load_saved_parsed {rt : Runtime} s text j :
  ls_playlist s = Some text -> text <> [] -> JSON_parse text = Some j ->
  exists s1, load_saved s = (Ok tt, s1) /\
             playlist s1 = fst (alloc j (next_id s)) /\
             next_id s1 = snd (alloc j (next_id s)).
Proof.
  intros Hls Hne Hparse.
  unfold load_saved. rewrite bind_get, Hls.
  destruct text as [|c text]; [congruence|].
  unfold try_catch, bind, parse. rewrite Hparse.
  destruct (alloc j (next_id s)) as [v n]. cbn.
  eexists; split; [reflexivity | auto].
Qed.

(** C9.  A saved text that parses to something other than an array is taken
    as the playlist as it is: the handler returns normally, and the playlist
    is the parsed value unless that value is falsy or its [length] is [0],
    the only cases in which the demo tracks replace it. *)
Theorem load_accepts_non_array {rt : Runtime} env s text j :
  ls_playlist s = Some text -> text <> [] -> JSON_parse text = Some j ->
  (forall l, j <> J_array l) ->
  let v := fst (alloc j (next_id s)) in
  exists s',
    load env s = (Ok tt, s') /\
    playlist s' = (if negb (truthy v) || has_length_zero v
                   then demo_playlist (snd (alloc j (next_id s)))
                   else v).
Proof.
  intros Hls Hne Hparse Hj v.
  destruct (load_saved_parsed s Hls Hne Hparse) as [s1 [Hrun1 [Hp1 Hn1]]].
  destruct (apply_fallback_run s1) as [s2 [Hrun2 [Hp2 _]]].
  rewrite Hp1, Hn1 in Hp2. fold v in Hp2.
  destruct (load_tail env s2) as [s3 [Hrun3 Hp3]].
  { intros b l E. rewrite Hp2 in E.
    destruct (negb (truthy v) || has_length_zero v).
    - exact (demo_playlist_renderable E).
    - pose proof (alloc_not_array (next_id s) Hj) as Hna.
      fold v in Hna. rewrite E in Hna. discriminate. }
  exists s3. split.
  - unfold load. rewrite (bind_Ok _ _ _ Hrun1), (bind_Ok _ _ _ Hrun2).
    exact Hrun3.
  - rewrite Hp3. exact Hp2.
Qed.

(** ** addToPlaylist *)

Lemma addToPlaylist_array {rt : Runtime} env s id l item :
  playlist s = VArr id l ->
  playlist (exec (addToPlaylist env item) s) = VArr id (l ++ [item]) /\
  ls_playlist (exec (addToPlaylist env item) s)
  = Some (JSON_stringify (VArr id (l ++ [item]))).
Proof.
  intros Hp. unfold exec, addToPlaylist.
  rewrite bind_get, Hp, bind_modify, bind_get, bind_modify.
  cbn [playlist set_playlist].
  match goal with |- context [buildPlaylistUI env ?s0] =>
    destruct (buildPlaylistUI_frame env s0) as [r [s' [-> [-> | [rc ->]]]]]
  end; simpl; auto.
Qed.

(** Only an array has [push]. *)
Lemma addToPlaylist_non_array {rt : Runtime} env s item :
  is_array (playlist s) = false ->
  addToPlaylist env item s = (Throw TypeError, s).
Proof.
  intros H. unfold addToPlaylist. rewrite bind_get.
  destruct (playlist s); try discriminate; reflexivity.
Qed.

Lemma run_add_calls {rt : Runtime} env items : forall s id l,
  playlist s = VArr id l ->
  playlist (run env (add_calls items) s) = VArr id (l ++ items) /\
  (items <> [] ->
   ls_playlist (run env (add_calls items) s)
   = Some (JSON_stringify (VArr id (l ++ items)))).
Proof.
  induction items as [|x items IH]; intros s id l Hp; simpl.
  - rewrite app_nil_r. split; [exact Hp | congruence].
  - destruct (@addToPlaylist_array _ env s id l x Hp) as [Hp1 Hls1].
    destruct (IH _ _ _ Hp1) as [Hp2 Hls2].
    rewrite <- app_assoc in Hp2, Hls2. simpl in Hp2, Hls2.
    unfold add. split; [exact Hp2|]. intros _.
    destruct items as [|y items].
    + simpl. exact Hls1.
    + apply Hls2; discriminate.
Qed.

(** C6.  Starting from an array playlist, [N] calls of [add] leave
    [getPlaylist()] the same array with the [N] tracks appended in call
    order after the unchanged initial elements, so its length is the initial
    length plus [N]; and after each call the storage entry holds the
    serialisation of the playlist as it then is. *)
Theorem add_is_append_only {rt : Runtime} env s id l items :
  playlist s = VArr id l ->
  let s' := run env (add_calls items) s in
  getPlaylist s' = VArr id (l ++ items) /\
  length (l ++ items) = length l + length items /\
  firstn (length l) (l ++ items) = l /\
  forall done rest, items = done ++ rest -> done <> [] ->
    let s1 := run env (add_calls done) s in
    getPlaylist s1 = VArr id (l ++ done) /\
    ls_playlist s1 = Some (JSON_stringify (getPlaylist s1)).
Proof.
  intros Hp s'. unfold getPlaylist.
  split; [apply (@run_add_calls _ env items s id l Hp)|].
  split; [apply length_app|].
  split.
  { rewrite firstn_app, Nat.sub_diag, firstn_all. simpl. apply app_nil_r. }
  intros done rest _ Hne.
  destruct (@run_add_calls _ env done s id l Hp) as [H1 H2].
  rewrite H1. split; [reflexivity | apply H2, Hne].
Qed.

(** ** isPlaying *)

(** Walks through a handler: binds, branches and state updates. *)
Ltac preserve_with known :=
  repeat first
    [ known
    | apply preserves_ret | apply preserves_lift | apply preserves_get
    | apply preserves_modify; intros; hnf in *; simpl; solve [auto]
    | apply preserves_bind; [|intros ?]
    | apply preserves_when
    | apply preserves_try_catch
    | apply preserves_if
    | match goal with
      | |- preserves _ (match ?x with _ => _ end) => destruct x
      end ].

Ltac preserve := preserve_with fail.

(** Handlers that never write the flag leave it as it is, set or not. *)
Section Flag.

Context {rt : Runtime}.
Variable env : Env.
Variable b : bool.

Lemma flag_fresh : preserves (flag_is b) fresh.
Proof. intros s H; exact H. Qed.

Lemma flag_parse text : preserves (flag_is b) (parse text).
Proof.
  intros s H. unfold exec, parse.
  destruct (JSON_parse text); [|exact H].
  destruct (alloc _ _); exact H.
Qed.

Lemma flag_buildPlaylistUI : preserves (flag_is b) (buildPlaylistUI env).
Proof. unfold buildPlaylistUI. preserve. Qed.

Lemma flag_onManifestParsed n levels :
  preserves (flag_is b) (onManifestParsed n levels).
Proof. unfold onManifestParsed. preserve. Qed.

Lemma flag_onQualityChange quality :
  preserves (flag_is b) (onQualityChange quality).
Proof. unfold onQualityChange. preserve. Qed.

Lemma flag_searchPlaylist query :
  preserves (flag_is b) (searchPlaylist env query).
Proof.
  unfold searchPlaylist.
  preserve_with ltac:(apply flag_buildPlaylistUI).
Qed.

Lemma flag_initializeTheme : preserves (flag_is b) (initializeTheme env).
Proof. unfold initializeTheme. preserve. Qed.

Lemma flag_themeToggleClick : preserves (flag_is b) (themeToggleClick env).
Proof. unfold themeToggleClick. preserve. Qed.

Lemma flag_load : preserves (flag_is b) (load env).
Proof.
  unfold load, load_saved, apply_fallback.
  preserve_with ltac:(first [ apply flag_parse | apply flag_fresh
                            | apply flag_buildPlaylistUI ]).
Qed.

Lemma flag_addToPlaylist item : preserves (flag_is b) (addToPlaylist env item).
Proof.
  unfold addToPlaylist. preserve_with ltac:(apply flag_buildPlaylistUI).
Qed.

(** Every event but a key press and those that reach [playListItem]. *)
Lemma flag_dispatch ev :
  writes_isPlaying ev = false -> preserves (flag_is b) (dispatch env ev).
Proof.
  destruct ev; simpl; try discriminate; intros _.
  - apply flag_load.
  - preserve_with ltac:(apply flag_onManifestParsed).
  - apply flag_onQualityChange.
  - apply flag_themeToggleClick.
  - apply flag_searchPlaylist.
  - apply flag_addToPlaylist.
Qed.

End Flag.

(** The two writers set the flag, so a set flag stays set. *)
Section Playing.

Context {rt : Runtime}.
Variable env : Env.

Lemma playing_playListItem index : preserves playing (playListItem env index).
Proof. unfold playListItem. preserve. Qed.

Lemma playing_run_handler h : preserves playing (run_handler env h).
Proof.
  unfold run_handler, handler_target.
  preserve_with ltac:(apply playing_playListItem).
Qed.

Lemma playing_click k : preserves playing (click env k).
Proof. unfold click. preserve_with ltac:(apply playing_run_handler). Qed.

Lemma playing_handleKeydown key : preserves playing (handleKeydown env key).
Proof. unfold handleKeydown. preserve. Qed.

Lemma playing_dispatch ev : preserves playing (dispatch env ev).
Proof.
  destruct (writes_isPlaying ev) eqn:W;
    [|exact (@flag_dispatch _ env true ev W)].
  destruct ev; simpl; try discriminate.
  - apply playing_playListItem.
  - apply playing_handleKeydown.
  - apply playing_click.
  - apply playing_playListItem.
Qed.

Lemma playing_run evs : forall s, playing s -> playing (run env evs s).
Proof.
  induction evs as [|ev evs IH]; intros s H; simpl.
  - exact H.
  - apply IH, playing_dispatch, H.
Qed.

End Playing.

(** C8.  [isPlaying] is false when the script starts.  Only a key press and
    the events that reach [playListItem] (the timer, a click on an item,
    [playIndex]) write it, and they write [true]: every other event (page
    load, the callbacks given to Hls.js and Plyr, the theme toggle, [search],
    [add]) leaves it as it is.  So from a state in which it is true, the
    theme initialisation and every sequence of events end in a state in
    which it is true, whether the handlers return or throw. *)
Theorem isPlaying_monotone {rt : Runtime} env :
  (forall saved_playlist saved_theme theme_attr,
     isPlaying (initial_state saved_playlist saved_theme theme_attr) = false) /\
  (forall s ev, writes_isPlaying ev = false ->
     isPlaying (exec (dispatch env ev) s) = isPlaying s) /\
  forall s, isPlaying s = true ->
    isPlaying (exec (initializeTheme env) s) = true /\
    forall evs, isPlaying (run env evs s) = true.
Proof.
  split; [reflexivity|].
  split.
  { intros s ev W. exact (@flag_dispatch _ env (isPlaying s) ev W s eq_refl). }
  intros s H. split.
  - exact (@flag_initializeTheme env true s H).
  - intros evs. apply playing_run; exact H.
Qed.

(** ** searchPlaylist *)

Lemma filter_Subseq A (g : A -> bool) l : Subseq (filter g l) l.
Proof.
  induction l as [|x l IH]; simpl.
  - constructor.
  - destruct (g x); constructor; exact IH.
Qed.

Lemma filterM_total A (f : A -> Res bool) (g : A -> bool) l :
  (forall x, In x l -> f x = Ok (g x)) -> filterM f l = Ok (filter g l).
Proof.
  induction l as [|x l IH]; intros H; simpl.
  - reflexivity.
  - rewrite (H x (or_introl eq_refl)). simpl.
    rewrite IH by (intros y Hy; apply H; right; exact Hy).
    simpl. destruct (g x); reflexivity.
Qed.

(** The [k]-th element [filterM] keeps is the element at the [k]-th
    position that satisfies the test. *)
Lemma filterM_positions A (f : A -> Res bool) l : forall r i k x,
  filterM f l = Ok r -> nth_error r k = Some x ->
  exists p, nth_error (positions_from (holds f) l i) k = Some (i + p) /\
            nth_error l p = Some x /\ f x = Ok true.
Proof.
  induction l as [|y l IH]; intros r i k x Hf Hk; simpl in Hf.
  - injection Hf as <-. destruct k; discriminate.
  - destruct (f y) as [b|] eqn:Ey; [|discriminate]. simpl in Hf.
    destruct (filterM f l) as [r'|] eqn:Er; [|discriminate]. simpl in Hf.
    injection Hf as <-. simpl. unfold holds at 1. rewrite Ey.
    destruct b.
    + destruct k as [|k]; simpl in Hk.
      * injection Hk as <-. exists 0. rewrite Nat.add_0_r. auto.
      * destruct (IH r' (S i) k x eq_refl Hk) as [p [H1 [H2 H3]]].
        exists (S p). simpl. rewrite Nat.add_succ_r. auto.
    + destruct (IH r' (S i) k x eq_refl Hk) as [p [H1 [H2 H3]]].
      exists (S p). simpl. rewrite Nat.add_succ_r. auto.
Qed.

Lemma title_matches_text {rt : Runtime} query it :
  title_is_text it = true ->
  title_matches (toLowerCase (trim query)) it = Ok (matches_query query it).
Proof.
  unfold title_matches, matches_query, title_of, title_is_text.
  destruct it as [| |b|x|s|a l|a ps]; simpl; try reflexivity.
  - destruct b; reflexivity.
  - destruct x; reflexivity.
  - destruct s; reflexivity.
  - destruct (lookup (str "title") ps) as [t|]; [|reflexivity].
    destruct t as [| |b|x|s|b l|b qs]; simpl; try reflexivity; try discriminate.
    + destruct b; [discriminate | reflexivity].
    + intros H. rewrite H. reflexivity.
    + destruct s; reflexivity.
Qed.

(** A title that is not text makes the filter throw. *)
Lemma title_matches_non_text {rt : Runtime} n it :
  title_is_text it = false -> title_matches n it = Throw TypeError.
Proof.
  unfold title_matches, title_is_text.
  destruct it as [| |b|x|s|a l|a ps]; simpl; try discriminate.
  destruct (lookup (str "title") ps) as [t|]; [|discriminate].
  destruct t as [| |b|x|s|b l|b qs]; simpl; try discriminate;
    try reflexivity.
  - destruct b; [reflexivity | discriminate].
  - intros H. apply negb_false_iff in H. rewrite H. reflexivity.
Qed.

Lemma filter_playlist_non_text {rt : Runtime} query id l :
  forallb title_is_text l = false ->
  filter_playlist (toLowerCase (trim query)) (VArr id l) = Throw TypeError.
Proof.
  simpl. induction l as [|x l IH]; simpl; [discriminate|].
  destruct (title_is_text x) eqn:Ex; simpl.
  - intros H. rewrite (title_matches_text query x Ex), (IH H). reflexivity.
  - intros _. rewrite (title_matches_non_text _ x Ex). reflexivity.
Qed.

(** A track the filter keeps is an object. *)
Lemma title_matches_object {rt : Runtime} n it :
  title_matches n it = Ok true -> exists a ps, it = VObj a ps.
Proof.
  unfold title_matches.
  destruct it as [| |b|x|s|a l|a ps]; simpl; try discriminate; eauto.
  - destruct b; discriminate.
  - destruct x; discriminate.
  - destruct s; discriminate.
Qed.

(** A track the filter keeps has a string for a title. *)
Lemma title_matches_title {rt : Runtime} n it :
  title_matches n it = Ok true -> exists t, get_field it (str "title") = Ok (VStr t).
Proof.
  unfold title_matches.
  destruct (truthy it); [|discriminate]. simpl.
  destruct (get_field it (str "title")) as [t|]; [|discriminate]. simpl.
  destruct (truthy t); [|discriminate]. simpl.
  destruct t; try discriminate. eauto.
Qed.

(** The handlers of the items built for a filtered list. *)
Lemma mapiM_filtered_item_handlers {rt : Runtime} l : forall i lis,
  mapiM filtered_item l i = Ok lis ->
  map li_onclick lis = map PlayOriginal l.
Proof.
  induction l as [|x l IH]; intros i lis H; simpl in H.
  - injection H as <-. reflexivity.
  - destruct (filtered_item x i) as [li|] eqn:Ex; [|discriminate]. simpl in H.
    destruct (mapiM filtered_item l (S i)) as [lis'|] eqn:El; [|discriminate].
    simpl in H. injection H as <-. simpl. rewrite (IH _ _ El). f_equal.
    unfold filtered_item in Ex.
    repeat match type of Ex with
           | res_bind ?r _ = _ => destruct r; [simpl in Ex | discriminate]
           end.
    injection Ex as <-. reflexivity.
Qed.

(** The items are built when every kept track has a logo that converts to
    text. *)
Lemma mapiM_filtered_item {rt : Runtime} n l : forall i,
  Forall (fun it => title_matches n it = Ok true) l ->
  forallb (fun it => field_printable it (str "logo")) l = true ->
  exists lis, mapiM filtered_item l i = Ok lis.
Proof.
  induction l as [|x l IH]; intros i H Hp; simpl.
  - eauto.
  - inversion H as [|y l' Hx Hl]; subst.
    simpl in Hp. apply andb_true_iff in Hp. destruct Hp as [Hpx Hpl].
    destruct (IH (S i) Hl Hpl) as [lis ->].
    destruct (title_matches_title _ _ Hx) as [t Et].
    unfold filtered_item, field_printable in *. rewrite Et.
    destruct (get_field x (str "logo")) as [lg|] eqn:Elg.
    + simpl. destruct (to_string_printable _ Hpx) as [src ->]. simpl.
      unfold js_or. destruct (truthy (VStr t)); simpl; eauto.
    + destruct (title_matches_object _ _ Hx) as [a [ps ->]]. discriminate.
Qed.

Lemma filterM_kept A (f : A -> Res bool) l : forall r,
  filterM f l = Ok r -> Forall (fun x => f x = Ok true) r.
Proof.
  induction l as [|y l IH]; intros r Hf; simpl in Hf.
  - injection Hf as <-. constructor.
  - destruct (f y) as [b|] eqn:Ey; [|discriminate]. simpl in Hf.
    destruct (filterM f l) as [r'|] eqn:Er; [|discriminate]. simpl in Hf.
    injection Hf as <-. destruct b; auto.
Qed.

(** What [searchPlaylist] has done when it returns for a query that is not
    blank, on a page with the container. *)
Lemma searchPlaylist_returned {rt : Runtime} env s query s1 :
  env_root_by_id env = true -> trim query <> [] ->
  searchPlaylist env query s = (Ok tt, s1) ->
  exists filtered,
    filter_playlist (toLowerCase (trim query)) (playlist s) = Ok filtered /\
    playlist s1 = playlist s /\
    match filtered with
    | [] => root s1 = Placeholder DEFAULT_EMPTY_MESSAGE
    | _ :: _ => exists lis, root s1 = Items lis /\
                            map li_onclick lis = map PlayOriginal filtered
    end.
Proof.
  intros Hroot Hq. unfold searchPlaylist.
  destruct (toLowerCase (trim query)) as [|c n] eqn:En.
  { exfalso. apply Hq, toLowerCase_nonempty, En. }
  rewrite bind_get.
  destruct (filter_playlist (c :: n) (playlist s)) as [filtered|e] eqn:Hf;
    [|rewrite bind_lift_Throw; discriminate].
  rewrite bind_lift_Ok, Hroot. cbn [negb].
  destruct filtered as [|x filtered].
  - rewrite modify_run. intros E; injection E as <-.
    exists []. auto.
  - rewrite bind_modify.
    destruct (mapiM filtered_item (x :: filtered) 0) as [lis|e] eqn:Hm;
      [|rewrite bind_lift_Throw; discriminate].
    rewrite bind_lift_Ok, modify_run. intros E; injection E as <-.
    exists (x :: filtered). split; [reflexivity|]. split; [reflexivity|].
    exists lis. split; [reflexivity|].
    exact (mapiM_filtered_item_handlers _ _ Hm).
Qed.

(** [searchPlaylist] returns when the filter does and every kept track has a
    logo that converts to text. *)
Lemma searchPlaylist_returns {rt : Runtime} env s query filtered :
  env_root_by_id env = true -> trim query <> [] ->
  filter_playlist (toLowerCase (trim query)) (playlist s) = Ok filtered ->
  forallb (fun it => field_printable it (str "logo")) filtered = true ->
  exists s1, searchPlaylist env query s = (Ok tt, s1).
Proof.
  intros Hroot Hq Hf Hp. unfold searchPlaylist.
  destruct (toLowerCase (trim query)) as [|c n] eqn:En.
  { exfalso. apply Hq, toLowerCase_nonempty, En. }
  rewrite bind_get, Hf, bind_lift_Ok, Hroot. cbn [negb].
  destruct filtered as [|x filtered].
  - eexists; reflexivity.
  - rewrite bind_modify.
    destruct (mapiM_filtered_item (c :: n) (l := x :: filtered) 0) as [lis Hm].
    { destruct (playlist s); try discriminate.
      exact (filterM_kept _ _ Hf). }
    { exact Hp. }
    rewrite Hm, bind_lift_Ok, modify_run. eexists; reflexivity.
Qed.

(** C5.  For an array playlist whose titles are text and a query that is
    not blank, the tracks [searchPlaylist] keeps are a subsequence of the
    playlist (original order, nothing added): exactly the tracks that have a
    title whose lower-cased form contains the trimmed, lower-cased query.
    Tracks without a title are left out.  These are the items rendered, one
    handler per kept track, when their logos convert to text. *)
Theorem search_filters_by_title {rt : Runtime} env s id l query :
  playlist s = VArr id l -> forallb title_is_text l = true ->
  trim query <> [] ->
  let normalized := toLowerCase (trim query) in
  let filtered := filter (matches_query query) l in
  filter_playlist normalized (playlist s) = Ok filtered /\
  Subseq filtered l /\
  (forall it, In it filtered <->
     In it l /\ exists t, title_of it = Some t /\
                          exists a b, toLowerCase t = a ++ normalized ++ b) /\
  (env_root_by_id env = true -> filtered <> [] ->
   forallb (fun it => field_printable it (str "logo")) filtered = true ->
   exists lis, root (exec (searchPlaylist env query) s) = Items lis /\
               map li_onclick lis = map PlayOriginal filtered).
Proof.
  intros Hp Ht Hq normalized filtered.
  assert (Hf : filter_playlist normalized (playlist s) = Ok filtered).
  { rewrite Hp. simpl. apply filterM_total.
    intros x Hx. apply title_matches_text.
    rewrite forallb_forall in Ht. apply Ht, Hx. }
  split; [exact Hf|].
  split; [apply filter_Subseq|].
  split.
  - intros it. unfold filtered. rewrite filter_In. unfold matches_query.
    split.
    + intros [Hin Hm]. split; [exact Hin|].
      destruct (title_of it) as [t|]; [|discriminate].
      exists t. split; [reflexivity|].
      apply JSStringFacts.includes_app, Hm.
    + intros [Hin [t [Ht' Hsub]]]. split; [exact Hin|].
      rewrite Ht'. apply JSStringFacts.includes_app, Hsub.
  - intros Hroot Hne Hlogo.
    destruct (searchPlaylist_returns env s query Hroot Hq Hf Hlogo) as [s1 Hrun].
    destruct (searchPlaylist_returned env s query Hroot Hq Hrun)
      as [filtered' [Hf' [_ Hr]]].
    assert (filtered' = filtered).
    { unfold normalized in Hf. rewrite Hf in Hf'. injection Hf'; auto. }
    subst filtered'.
    unfold exec. rewrite Hrun. simpl.
    destruct filtered; [congruence | exact Hr].
Qed.

(** ** Clicking a filtered item *)

Lemma array_indexOf_from_first l x : forall i p y,
  nth_error l p = Some y -> strict_eq y x = true ->
  exists r, r <= p /\
    array_indexOf_from l x i = Z.of_nat (i + r) /\
    (exists z, nth_error l r = Some z /\ strict_eq z x = true) /\
    (forall j z, j < r -> nth_error l j = Some z -> strict_eq z x = false).
Proof.
  induction l as [|h l IH]; intros i p y Hp Hy.
  - destruct p; discriminate.
  - simpl. destruct (strict_eq h x) eqn:Eh.
    + exists 0. rewrite Nat.add_0_r. repeat split.
      * lia.
      * exists h; auto.
      * intros j z Hj; lia.
    + destruct p as [|p]; simpl in Hp.
      * injection Hp as ->. congruence.
      * destruct (IH (S i) p y Hp Hy) as [r [Hle [Hidx [Hat Hbefore]]]].
        exists (S r). rewrite Nat.add_succ_r. repeat split.
        -- lia.
        -- exact Hidx.
        -- exact Hat.
        -- intros [|j] z Hj Hz; simpl in Hz.
           ++ injection Hz as <-. exact Eh.
           ++ apply (Hbefore j z); [lia | exact Hz].
Qed.

(** C4.  In the list [searchPlaylist] has rendered for a query that is not
    blank, the [k]-th item stands for the [k]-th track the filter kept, and
    its handler calls [playListItem] with an index [r] into the whole
    playlist: [r] is the first index at which the playlist holds that very
    track.  When no object is listed twice, [r] is the position the track
    was filtered from, the [k]-th matching position of the playlist. *)
Theorem filtered_click_plays_original {rt : Runtime} env s query s1 lis k li :
  env_root_by_id env = true -> trim query <> [] ->
  searchPlaylist env query s = (Ok tt, s1) ->
  root s1 = Items lis -> nth_error lis k = Some li ->
  exists id l filtered it r,
    playlist s = VArr id l /\
    filter_playlist (toLowerCase (trim query)) (playlist s) = Ok filtered /\
    nth_error filtered k = Some it /\
    li_onclick li = PlayOriginal it /\
    handler_target (PlayOriginal it) s1 = (Ok (Some (Z.of_nat r)), s1) /\
    click env k s1 = playListItem env (Z.of_nat r) s1 /\
    (exists x, nth_error l r = Some x /\ strict_eq x it = true) /\
    (forall j x, j < r -> nth_error l j = Some x -> strict_eq x it = false) /\
    (distinct_objects l ->
     nth_error l r = Some it /\
     nth_error (positions (holds (title_matches (toLowerCase (trim query)))) l) k
     = Some r).
Proof.
  intros Hroot Hq Hrun Hroot1 Hli.
  destruct (searchPlaylist_returned env s query Hroot Hq Hrun)
    as [filtered [Hf [Hp1 Hr]]].
  destruct filtered as [|f0 filtered]; [congruence|].
  destruct Hr as [lis' [Hroot1' Hh]].
  assert (lis' = lis) by congruence. subst lis'.
  assert (Hk : exists it, nth_error (f0 :: filtered) k = Some it /\
                          li_onclick li = PlayOriginal it).
  { pose proof (map_nth_error li_onclick k lis Hli) as H1.
    rewrite Hh in H1.
    destruct (nth_error (f0 :: filtered) k) as [it|] eqn:Eit.
    - exists it. split; [reflexivity|].
      rewrite (map_nth_error PlayOriginal k (f0 :: filtered) Eit) in H1.
      injection H1; auto.
    - apply nth_error_None in Eit.
      assert (nth_error (map PlayOriginal (f0 :: filtered)) k <> None)
        by congruence.
      apply nth_error_Some in H. rewrite length_map in H. lia. }
  destruct Hk as [it [Hk Hclick]].
  destruct (playlist s) as [| | | | |id l|] eqn:Hp; try discriminate.
  simpl in Hf.
  destruct (filterM_positions _ l 0 k Hf Hk) as [p [Hpos [Hlp Hm]]].
  destruct (title_matches_object _ _ Hm) as [a [ps ->]].
  assert (Hrefl : strict_eq (VObj a ps) (VObj a ps) = true)
    by (simpl; apply Nat.eqb_refl).
  destruct (array_indexOf_from_first l (VObj a ps) 0 p Hlp Hrefl)
    as [r [Hle [Hidx [Hat Hbefore]]]].
  simpl in Hidx.
  assert (Htarget : handler_target (PlayOriginal (VObj a ps)) s1
                    = (Ok (Some (Z.of_nat r)), s1)).
  { unfold handler_target. rewrite bind_get, Hp1. simpl playlist_indexOf.
    rewrite bind_lift_Ok. unfold array_indexOf. rewrite Hidx.
    unfold ret. destruct (Z.eqb_spec (Z.of_nat r) (-1)); [lia | reflexivity]. }
  exists id, l, (f0 :: filtered), (VObj a ps), r.
  split; [reflexivity|].
  split; [exact Hf|].
  split; [exact Hk|].
  split; [exact Hclick|].
  split; [exact Htarget|].
  split.
  { unfold click. rewrite bind_get, Hroot1, Hli, Hclick.
    unfold run_handler. rewrite (bind_Ok _ _ _ Htarget). reflexivity. }
  split; [exact Hat|].
  split; [exact Hbefore|].
  intros Hd.
  destruct Hat as [z [Hz Hzeq]].
  destruct z as [| | | | | |a' qs]; simpl in Hzeq; try discriminate.
  apply Nat.eqb_eq in Hzeq; subst a'.
  assert (r = p) by (eapply Hd; eassumption). subst r.
  split; [exact Hlp|]. exact Hpos.
Qed.

(** ** The script at work

    The spec's example scenario, run from the saved text to the click. *)

Example scenario_search_then_click :
  let s := session (rt := engine) (Sample.page (Some true))
             (Some Sample.scenario_text) None None
             [DOMContentLoaded; CallSearch (str "  BETA "); ClickItem 0] in
  playlist s = VArr 1 [ Sample.track 2 "Alpha" "a.mp4";
                        Sample.track 3 "Beta Show" "b.m3u8" ] /\
  calls s = [SetTimeout (PlayIndex 0) 50; HlsNew; HlsLoadSource (VStr (str "b.m3u8"));
             HlsAttachMedia; HlsOnManifestParsed; PlyrPlay] /\
  player_src s = None /\ isPlaying s = true /\
  player_title s = Some (str "Beta Show") /\
  map li_text (match root s with Items lis => lis | _ => [] end)
  = [str "Beta Show"].
Proof. vm_compute. repeat split. Qed.

(** With nothing saved the two demo tracks are rendered, and the timer plays
    the first of them through Hls.js. *)
Example first_visit_plays_demo :
  let s := session (rt := engine) (Sample.page (Some true)) None None None
             [DOMContentLoaded; TimerFires] in
  playlist s = demo_playlist 1 /\
  calls s = SetTimeout (PlayIndex 0) 50
            :: hls_attach (VStr (str "https://example.com/stream1.m3u8"))
            ++ [PlyrPlay] /\
  map li_active (match root s with Items lis => lis | _ => [] end) = [true; false] /\
  ls_theme s = Some (str "dark").
Proof. vm_compute. repeat split. Qed.

(** Without Hls.js the same track goes to the player's [src]. *)
Example first_visit_without_hls :
  let s := session (rt := engine) (Sample.page None) None None None
             [DOMContentLoaded; TimerFires] in
  player_src s = Some (str "https://example.com/stream1.m3u8") /\
  calls s = [SetTimeout (PlayIndex 0) 50; PlyrPlay].
Proof. vm_compute. repeat split. Qed.

(** [add] persists what it appended, and the text reads back. *)
Example add_then_reload :
  let s := run (rt := engine) (Sample.page None) [CallAdd Sample.alpha]
             (Sample.state_of [] None) in
  option_map (JSON_parse (Runtime := engine)) (ls_playlist s)
  = Some (Some (J_array [J_object [ (str "title", J_string (str "Alpha"));
                                    (str "stream_url", J_string (str "a.mp4")) ]])).
Proof. vm_compute. reflexivity. Qed.

(** A [null] entry is appended and persisted, and then makes the re-render
    throw: the container keeps what it showed. *)
Example add_null_throws_after_persisting :
  let s := Sample.state_of [Sample.alpha] None in
  let r := addToPlaylist (rt := engine) (Sample.page None) VNull s in
  fst r = Throw TypeError /\
  playlist (snd r) = VArr 0 [Sample.alpha; VNull] /\
  ls_playlist (snd r) = Some (Sample.json "[{'title':'Alpha','stream_url':'a.mp4'},null]") /\
  root (snd r) = Untouched.
Proof. vm_compute. repeat split. Qed.

(** A title that is a number makes the filter throw. *)
Example search_numeric_title_throws :
  fst (searchPlaylist (rt := engine) (Sample.page None) (str "a")
         (Sample.state_of [VObj 7 [(str "title", VNum (num_of_nat 5))]] None))
  = Throw TypeError.
Proof. reflexivity. Qed.

(** A title that does not convert to text stops [playListItem] at the title
    label, after the source has been assigned and before playback starts. *)
Example unprintable_title_stops_playback :
  let odd := VObj 8 [ (str "title", VObj 9 [(str "toString", VNull)]);
                      (str "stream_url", VStr (str "a.mp4")) ] in
  let r := playListItem (rt := engine) (Sample.page None) 0
             (Sample.state_of [odd] None) in
  fst r = Throw TypeError /\ player_src (snd r) = Some (str "a.mp4") /\
  calls (snd r) = [] /\ isPlaying (snd r) = false.
Proof. vm_compute. repeat split. Qed.

(** A saved JSON text that is a string becomes the playlist; index 0 then
    plays its first character as a track without source. *)
Example saved_string_is_played :
  let s := session (rt := engine) (Sample.page None)
             (Some (Sample.json "'abc'")) None None
             [DOMContentLoaded; TimerFires] in
  playlist s = VStr (str "abc") /\ player_src s = Some [] /\
  isPlaying s = true /\ root s = Placeholder DEFAULT_EMPTY_MESSAGE.
Proof. vm_compute. repeat split. Qed.

(** Once Hls.js has parsed the manifest of the demo stream, its levels are
    the player's quality options, and a selection sets the current level. *)
Example quality_selection :
  let level h b := VObj 0 [ (str "height", VNum (num_of_nat h));
                            (str "bitrate", VNum (num_of_nat b)) ] in
  let s := session (rt := engine) (Sample.page (Some true)) None None None
             [ DOMContentLoaded; TimerFires;
               ManifestParsed 0 (VArr 0 [level 360 500; level 720 1000]);
               QualityChange (VStr (str "720p @ 1000")) ] in
  quality_options s = [str "360p @ 500"; str "720p @ 1000"] /\
  map hls_currentLevel (hls s) = [Some 1%Z] /\
  map hls_source (hls s) = [VStr (str "https://example.com/stream1.m3u8")].
Proof. vm_compute. repeat split. Qed.

(** Saved texts that are JSON but no array: a number and an object stay,
    [null], [0] and an object whose [length] is [0] give way to the demo
    tracks. *)
Example saved_non_arrays :
  let after (text : string) :=
    playlist (session (rt := engine) (Sample.page None)
                (Some (Sample.json text)) None None [DOMContentLoaded]) in
  after "5"%string = VNum (S754_finite false 5629499534213120 (-50)) /\
  after "{'a':true}"%string = VObj 1 [(str "a", VBool true)] /\
  after "null"%string = demo_playlist 1 /\
  after "0"%string = demo_playlist 1 /\
  after "{'length':0}"%string = demo_playlist 2 /\
  after "[]"%string = demo_playlist 2.
Proof. vm_compute. repeat split. Qed.

(** The keys: Enter starts playback once, "/" focuses the search box. *)
Example keys :
  let s := session (rt := engine) (Sample.page None) None None None
             [Keydown (str "Enter"); Keydown (str "Enter"); Keydown (str "/")] in
  calls s = [PreventDefault; PlyrPlay; PreventDefault; FocusSearch] /\
  isPlaying s = true.
Proof. vm_compute. repeat split. Qed.

(** The theme toggle flips the stored theme. *)
Example theme_toggle :
  let s := session (rt := engine) (Sample.page None) None None None
             [ClickThemeToggle] in
  data_theme s = Some (str "light") /\ ls_theme s = Some (str "light") /\
  toggle_text s = Some ICON_LIGHT.
Proof. vm_compute. repeat split. Qed.

(** ** The theorems at concrete inputs *)

(** C1: the second track of the scenario, with Hls.js ready. *)
Lemma playListItem_source_dispatch_witness :
  exists r s' rest,
    playListItem (rt := engine) (Sample.page (Some true)) 1
      (Sample.state_of [Sample.alpha; Sample.beta_show] None) = (r, s') /\
    (rest = [] \/ rest = [PlyrPlay]) /\
    if hls_ready (Sample.page (Some true))
       && JSString.includes (str "b.m3u8") (str ".m3u8")
    then calls s' = [] ++ hls_attach (VStr (str "b.m3u8")) ++ rest /\
         player_src s' = None
    else player_src s' = Some (str "b.m3u8") /\
         calls s' = [] ++ rest.
Proof.
  apply (@playListItem_source_dispatch engine (Sample.page (Some true))
           (Sample.state_of [Sample.alpha; Sample.beta_show] None)
           0 [Sample.alpha; Sample.beta_show] 1 Sample.beta_show (str "b.m3u8"));
    [reflexivity | lia | reflexivity | reflexivity | reflexivity].
Defined.

(** C1 as the spec words it fails: this URL does not end in ['.m3u8'], yet
    with Hls.js ready it is handed to Hls.js and never assigned to [src]. *)
Lemma playListItem_suffix_counterexample :
  let env := Sample.page (Some true) in
  let s := Sample.state_of [Sample.tokened] None in
  let u := str "https://cdn.example/live.m3u8?token=1" in
  resolve_url Sample.tokened = Ok (VStr u) /\
  JSString.endsWith u (str ".m3u8") = false /\
  fst (playListItem (rt := engine) env 0 s) = Ok tt /\
  player_src (exec (playListItem (rt := engine) env 0) s) = None /\
  calls (exec (playListItem (rt := engine) env 0) s)
  = hls_attach (VStr u) ++ [PlyrPlay].
Proof. vm_compute. repeat split. Qed.

(** C2: a text that is not JSON, on the first visit. *)
Lemma load_malformed_falls_back_witness :
  (exists a, playlist (exec (load_saved (rt := engine))
                         (Sample.state_of [] (Some (str "{oops")))) = VArr a []) /\
  exists s' a,
    load (rt := engine) (Sample.page None)
      (Sample.state_of [] (Some (str "{oops"))) = (Ok tt, s') /\
    playlist s' = demo_playlist a.
Proof.
  apply (@load_malformed_falls_back engine (Sample.page None)
           (Sample.state_of [] (Some (str "{oops"))) (str "{oops"));
    [reflexivity | reflexivity | left; discriminate].
Defined.

(** C3: index 2 of a playlist of two. *)
Lemma playListItem_out_of_range_noop_witness :
  playListItem (rt := engine) (Sample.page (Some true)) 2
    (Sample.state_of [Sample.alpha; Sample.beta_show] None)
  = (Ok tt, Sample.state_of [Sample.alpha; Sample.beta_show] None).
Proof.
  apply (@playListItem_out_of_range_noop engine (Sample.page (Some true))
           (Sample.state_of [Sample.alpha; Sample.beta_show] None)
           0 [Sample.alpha; Sample.beta_show] 2);
    [reflexivity | right; simpl; lia].
Defined.

(** C4: the scenario's search for "beta", and a click on its only result. *)
Lemma filtered_click_plays_original_witness :
  let s := Sample.state_of [Sample.alpha; Sample.beta_show] None in
  let env := Sample.page (Some true) in
  let query := str "beta" in
  let s1 := exec (searchPlaylist (rt := engine) env query) s in
  let li := {| li_img_src := []; li_img_alt := str "Beta Show";
               li_text := str "Beta Show"; li_index := None;
               li_onclick := PlayOriginal Sample.beta_show;
               li_active := false |} in
  exists id l filtered it r,
    playlist s = VArr id l /\
    filter_playlist (rt := engine)
      (toLowerCase (Runtime := engine) (trim (Runtime := engine) query))
      (playlist s) = Ok filtered /\
    nth_error filtered 0 = Some it /\
    li_onclick li = PlayOriginal it /\
    handler_target (PlayOriginal it) s1 = (Ok (Some (Z.of_nat r)), s1) /\
    click (rt := engine) env 0 s1 = playListItem (rt := engine) env (Z.of_nat r) s1 /\
    (exists x, nth_error l r = Some x /\ strict_eq x it = true) /\
    (forall j x, j < r -> nth_error l j = Some x -> strict_eq x it = false) /\
    (distinct_objects l ->
     nth_error l r = Some it /\
     nth_error
       (positions (holds (title_matches (rt := engine)
                            (toLowerCase (Runtime := engine)
                               (trim (Runtime := engine) query)))) l) 0
     = Some r).
Proof.
  apply (@filtered_click_plays_original engine (Sample.page (Some true))
           (Sample.state_of [Sample.alpha; Sample.beta_show] None)
           (str "beta")
           (exec (searchPlaylist (rt := engine) (Sample.page (Some true))
                    (str "beta"))
                 (Sample.state_of [Sample.alpha; Sample.beta_show] None))
           [ {| li_img_src := []; li_img_alt := str "Beta Show";
                li_text := str "Beta Show"; li_index := None;
                li_onclick := PlayOriginal Sample.beta_show;
                li_active := false |} ]
           0);
    [reflexivity | discriminate | reflexivity | reflexivity | reflexivity].
Defined.

(** C5: the same search keeps exactly "Beta Show". *)
Lemma search_filters_by_title_witness :
  let s := Sample.state_of [Sample.alpha; Sample.beta_show] None in
  let env := Sample.page (Some true) in
  let query := str " Beta" in
  let l := [Sample.alpha; Sample.beta_show] in
  let normalized := toLowerCase (Runtime := engine) (trim (Runtime := engine) query) in
  let filtered := filter (matches_query (rt := engine) query) l in
  filter_playlist (rt := engine) normalized (playlist s) = Ok filtered /\
  Subseq filtered l /\
  (forall it, In it filtered <->
     In it l /\ exists t, title_of it = Some t /\
                          exists a b, toLowerCase (Runtime := engine) t
                                      = a ++ normalized ++ b) /\
  (env_root_by_id env = true -> filtered <> [] ->
   forallb (fun it => field_printable it (str "logo")) filtered = true ->
   exists lis, root (exec (searchPlaylist (rt := engine) env query) s) = Items lis /\
               map li_onclick lis = map PlayOriginal filtered).
Proof.
  apply (@search_filters_by_title engine (Sample.page (Some true))
           (Sample.state_of [Sample.alpha; Sample.beta_show] None)
           0 [Sample.alpha; Sample.beta_show] (str " Beta"));
    [reflexivity | reflexivity | discriminate].
Defined.

(** C6: two tracks added to the scenario's playlist. *)
Lemma add_is_append_only_witness :
  let s := Sample.state_of [Sample.alpha; Sample.beta_show] None in
  let env := Sample.page None in
  let l := [Sample.alpha; Sample.beta_show] in
  let items := [Sample.tokened; Sample.silent] in
  let s' := run (rt := engine) env (add_calls items) s in
  getPlaylist s' = VArr 0 (l ++ items) /\
  length (l ++ items) = length l + length items /\
  firstn (length l) (l ++ items) = l /\
  forall done rest, items = done ++ rest -> done <> [] ->
    let s1 := run (rt := engine) env (add_calls done) s in
    getPlaylist s1 = VArr 0 (l ++ done) /\
    ls_playlist s1 = Some (JSON_stringify (Runtime := engine) (getPlaylist s1)).
Proof.
  apply (@add_is_append_only engine (Sample.page None)
           (Sample.state_of [Sample.alpha; Sample.beta_show] None)
           0 [Sample.alpha; Sample.beta_show] [Sample.tokened; Sample.silent]);
    reflexivity.
Defined.

(** C7: an empty [stream_url] gives way to [stream]. *)
Lemma playListItem_resolves_source_witness :
  let s := Sample.state_of [Sample.legacy] None in
  let env := Sample.page (Some true) in
  let url := VStr (str "d.mp3") in
  resolve_url Sample.legacy = Ok url /\
  forall adaptive src, use_hls env url = Ok adaptive ->
    to_string (rt := engine) url = Ok src ->
    exists r s' rest,
      playListItem (rt := engine) env 0 s = (r, s') /\
      (rest = [] \/ rest = [PlyrPlay]) /\
      player_src s' = (if adaptive then player_src s else Some src) /\
      calls s' = calls s ++ (if adaptive then hls_attach url else []) ++ rest.
Proof.
  apply (@playListItem_resolves_source engine (Sample.page (Some true))
           (Sample.state_of [Sample.legacy] None) 0 [Sample.legacy] 0 5
           [ (str "title", VStr (str "Legacy")); (str "stream_url", VStr []);
             (str "stream", VStr (str "d.mp3")) ]);
    [reflexivity | lia | reflexivity].
Defined.

(** C8: a state in which playback has started; [add] does not touch the
    flag, and nothing clears it. *)
Lemma isPlaying_monotone_witness :
  let s := set_isPlaying true (Sample.state_of [Sample.alpha] None) in
  let env := Sample.page None in
  isPlaying (exec (dispatch (rt := engine) env (CallAdd Sample.silent)) s)
  = isPlaying s /\
  isPlaying (exec (initializeTheme env) s) = true /\
  forall evs, isPlaying (run (rt := engine) env evs s) = true.
Proof.
  split.
  - apply (proj1 (proj2 (@isPlaying_monotone engine (Sample.page None))));
      reflexivity.
  - apply (proj2 (proj2 (@isPlaying_monotone engine (Sample.page None)))
             (set_isPlaying true (Sample.state_of [Sample.alpha] None)));
      reflexivity.
Defined.

(** C9: a saved JSON object. *)
Lemma load_accepts_non_array_witness :
  let text := Sample.json "{'kind':'not a list'}" in
  let j := J_object [ (str "kind", J_string (str "not a list")) ] in
  let s := Sample.state_of [] (Some text) in
  let v := fst (alloc j (next_id s)) in
  exists s',
    load (rt := engine) (Sample.page None) s = (Ok tt, s') /\
    playlist s' = (if negb (truthy v) || has_length_zero v
                   then demo_playlist (snd (alloc j (next_id s)))
                   else v).
Proof.
  apply (@load_accepts_non_array engine (Sample.page None)
           (Sample.state_of [] (Some (Sample.json "{'kind':'not a list'}")))
           (Sample.json "{'kind':'not a list'}")
           (J_object [ (str "kind", J_string (str "not a list")) ]));
    [reflexivity | discriminate | reflexivity | discriminate].
Defined.

(** C10: a track without any source. *)
Lemma playListItem_without_source_witness :
  exists s',
    playListItem (rt := engine) (Sample.page (Some true)) 0
      (Sample.state_of [Sample.silent] None) = (Ok tt, s') /\
    player_src s' = Some [] /\
    calls s' = [] ++ [PlyrPlay] /\
    isPlaying s' = true.
Proof.
  apply (@playListItem_without_source engine (Sample.page (Some true))
           (Sample.state_of [Sample.silent] None) 0 [Sample.silent] 0
           Sample.silent);
    [reflexivity | lia | reflexivity | reflexivity | reflexivity | reflexivity
    | reflexivity].
Defined.

(** * The rest of the script *)

Lemma set_root_same s : set_root (root s) s = s.
Proof. destruct s; reflexivity. Qed.

Lemma set_root_twice r r' s : set_root r (set_root r' s) = set_root r s.
Proof. reflexivity. Qed.

(** ** Rendering the whole playlist *)

Lemma build_item_fields {rt : Runtime} item j li :
  build_item item j = Ok li ->
  li_index li = Some j /\ li_onclick li = PlayIndex j /\ li_active li = false /\
  li_img_alt li = li_text li /\
  exists t, get_field item (str "title") = Ok t /\
            to_string (js_or t (VStr (str "Untitled"))) = Ok (li_text li).
Proof.
  unfold build_item. intros H.
  destruct (get_field item (str "title")) as [t|]; [simpl in H | discriminate].
  destruct (get_field item (str "logo")) as [lg|]; [simpl in H | discriminate].
  destruct (get_field item (str "lang")) as [la|]; [simpl in H | discriminate].
  destruct (to_string (js_or lg (VStr []))) as [src|]; [simpl in H | discriminate].
  destruct (to_string (js_or t (VStr (str "Untitled")))) as [alt|] eqn:Et;
    [simpl in H | discriminate].
  injection H as <-. simpl. repeat split; try reflexivity.
  exists t. auto.
Qed.

Lemma mapiM_nth A B (f : A -> nat -> Res B) l : forall i r,
  mapiM f l i = Ok r ->
  length r = length l /\
  forall k y, nth_error r k = Some y ->
    exists x, nth_error l k = Some x /\ f x (i + k) = Ok y.
Proof.
  induction l as [|x l IH]; intros i r H; simpl in H.
  - injection H as <-. split; [reflexivity|]. intros [|k] y; discriminate.
  - destruct (f x i) as [y0|] eqn:Ex; [simpl in H | discriminate].
    destruct (mapiM f l (S i)) as [r'|] eqn:El; [simpl in H | discriminate].
    injection H as <-. destruct (IH _ _ El) as [Hlen Hnth].
    split; [simpl; congruence|].
    intros [|k] y Hk; simpl in Hk.
    + injection Hk as <-. exists x. rewrite Nat.add_0_r. auto.
    + destruct (Hnth k y Hk) as [x' [H1 H2]].
      exists x'. rewrite Nat.add_succ_r. auto.
Qed.

(** What a returning render has done on a page with a container. *)
Lemma buildPlaylistUI_rendered {rt : Runtime} env s id l :
  env_root_by_id env || env_root_by_class env = true ->
  playlist s = VArr id l -> l <> [] -> forallb renderable l = true ->
  exists lis, mapiM build_item l 0 = Ok lis /\
              buildPlaylistUI env s = (Ok tt, set_root (Items lis) s).
Proof.
  intros Hc Hp Hne Hr.
  destruct (mapiM_build_item l 0 Hr) as [lis Hm].
  exists lis. split; [exact Hm|].
  unfold buildPlaylistUI. rewrite Hc. cbn [negb]. rewrite bind_get, Hp.
  destruct l as [|x l]; [congruence|].
  rewrite Hm, bind_lift_Ok. reflexivity.
Qed.


(** Converting to text raises nothing but a TypeError. *)
Lemma to_string_throws {rt : Runtime} v e : to_string v = Throw e -> e = TypeError.
Proof.
  revert e.
  induction v as [| |b|x|s|id l IHl|id ps _] using JSValue_nested_ind;
    intros e H; simpl in H; try discriminate.
  - assert (forall first e,
      (fix join (l : list JSValue) (first : bool) : Res jsstring :=
         match l with
         | [] => Ok []
         | x :: r =>
             res_bind (match x with
                       | VUndefined | VNull => Ok []
                       | _ => to_string x
                       end) (fun sx =>
             res_bind (join r false) (fun sr =>
             Ok ((if first then [] else str ",") ++ sx ++ sr)))
         end) l first = Throw e -> e = TypeError) as Hjoin.
    { clear H e. induction l as [|y l IH]; intros first e H; [discriminate|].
      inversion IHl as [|? ? Py Pl]; subst.
      match type of H with
      | res_bind ?r _ = _ => destruct r as [sx|e1] eqn:Ey
      end.
      - simpl in H.
        match type of H with
        | res_bind ?r _ = _ => destruct r as [sr|e2] eqn:Er
        end; [discriminate|].
        simpl in H. injection H as <-. exact (IH Pl false e2 Er).
      - simpl in H. injection H as <-.
        destruct y; try discriminate; apply Py; exact Ey. }
    exact (Hjoin true e H).
  - destruct (lookup (str "toString") ps); [|discriminate].
    injection H as <-. reflexivity.
Qed.

Lemma get_field_throws v k e : get_field v k = Throw e -> e = TypeError.
Proof. destruct v; simpl; intros H; try discriminate; injection H; auto. Qed.

Lemma build_item_throws {rt : Runtime} item i e :
  build_item item i = Throw e -> e = TypeError.
Proof.
  unfold build_item. intros H.
  repeat match type of H with
         | res_bind ?r _ = _ =>
             let E := fresh "E" in
             destruct r eqn:E;
             [simpl in H
             | simpl in H; injection H as <-;
               first [exact (get_field_throws _ _ E) | exact (to_string_throws _ E)]]
         end.
  discriminate.
Qed.

Lemma mapiM_build_item_throws {rt : Runtime} l : forall i e,
  mapiM build_item l i = Throw e -> e = TypeError.
Proof.
  induction l as [|x l IH]; intros i e H; simpl in H; [discriminate|].
  destruct (build_item x i) as [li|e1] eqn:Ex.
  - simpl in H. destruct (mapiM build_item l (S i)) as [r|e2] eqn:El;
      [discriminate|].
    simpl in H. injection H as <-. exact (IH _ _ El).
  - simpl in H. injection H as <-. exact (build_item_throws _ _ Ex).
Qed.

Lemma mapiM_build_item_absent {rt : Runtime} l : forall i,
  In VNull l \/ In VUndefined l -> mapiM build_item l i = Throw TypeError.
Proof.
  induction l as [|x l IH]; intros i H; simpl.
  - destruct H as [[]|[]].
  - destruct (build_item x i) as [li|e] eqn:Ex.
    + assert (Hl : In VNull l \/ In VUndefined l).
      { destruct H as [[->|H]|[->|H]]; auto; discriminate. }
      rewrite (IH (S i) Hl). reflexivity.
    + simpl. rewrite (build_item_throws _ _ Ex). reflexivity.
Qed.

(** A render that throws leaves everything as it was. *)
Lemma buildPlaylistUI_throw {rt : Runtime} env s e s' :
  buildPlaylistUI env s = (Throw e, s') -> e = TypeError /\ s' = s.
Proof.
  unfold buildPlaylistUI.
  destruct (negb _); [discriminate|].
  rewrite bind_get.
  destruct (playlist s) as [| | | | |a [|x l]|]; try discriminate.
  destruct (mapiM build_item (x :: l) 0) as [lis|e1] eqn:Em.
  - rewrite bind_lift_Ok. discriminate.
  - rewrite bind_lift_Throw. intros H; injection H as <- <-.
    split; [exact (mapiM_build_item_throws _ _ Em) | reflexivity].
Qed.

(** An entry that is [null] or [undefined] makes the render throw. *)
Lemma buildPlaylistUI_absent {rt : Runtime} env s id l :
  env_root_by_id env || env_root_by_class env = true ->
  playlist s = VArr id l -> In VNull l \/ In VUndefined l ->
  buildPlaylistUI env s = (Throw TypeError, s).
Proof.
  intros Hc Hp Hin. unfold buildPlaylistUI.
  rewrite Hc. cbn [negb]. rewrite bind_get, Hp.
  destruct l as [|x l]; [destruct Hin as [[]|[]]|].
  rewrite (mapiM_build_item_absent _ 0 Hin). reflexivity.
Qed.

(** X2.  A render of the whole playlist is all or nothing.  When it throws,
    the exception is a TypeError and the state, the container included, is as
    it was; and on a page with a container it does throw whenever the
    playlist array holds [null] or [undefined]. *)
Theorem buildPlaylistUI_all_or_nothing {rt : Runtime} env s :
  (forall e s', buildPlaylistUI env s = (Throw e, s') -> e = TypeError /\ s' = s) /\
  (forall id l,
     env_root_by_id env || env_root_by_class env = true ->
     playlist s = VArr id l -> In VNull l \/ In VUndefined l ->
     buildPlaylistUI env s = (Throw TypeError, s)).
Proof.
  split.
  - intros e s'. apply buildPlaylistUI_throw.
  - intros id l. apply buildPlaylistUI_absent.
Qed.

(** ** Searching *)

(** Whatever a search does, it does to the playlist container. *)
Lemma searchPlaylist_frame {rt : Runtime} env s query :
  exists r rc, searchPlaylist env query s = (r, set_root rc s).
Proof.
  unfold searchPlaylist.
  destruct (toLowerCase (trim query)) as [|c n].
  - destruct (buildPlaylistUI_frame env s) as [r [s' [-> [-> | [rc ->]]]]].
    + exists r, (root s). rewrite set_root_same. reflexivity.
    + exists r, rc. reflexivity.
  - rewrite bind_get.
    destruct (filter_playlist (c :: n) (playlist s)) as [filtered|e].
    + rewrite bind_lift_Ok.
      destruct (negb (env_root_by_id env)).
      * exists (Ok tt), (root s). rewrite set_root_same. reflexivity.
      * destruct filtered as [|x filtered].
        -- eexists; eexists; reflexivity.
        -- rewrite bind_modify.
           destruct (mapiM filtered_item (x :: filtered) 0) as [lis|e].
           ++ rewrite bind_lift_Ok. eexists; eexists; reflexivity.
           ++ rewrite bind_lift_Throw. eexists; eexists; reflexivity.
    + rewrite bind_lift_Throw.
      exists (Throw e), (root s). rewrite set_root_same. reflexivity.
Qed.

(** X3.  A search reads the playlist and writes the playlist container,
    nothing else: whether it returns or throws, the state it leaves is the
    state it found with the container's content replaced, so the playlist
    variable, both storage entries, [isPlaying], the player and the calls
    made on the collaborators are as before. *)
Theorem search_writes_container_only {rt : Runtime} env s query :
  exists rc,
    exec (search env query) s = set_root rc s /\
    playlist (exec (search env query) s) = playlist s /\
    ls_playlist (exec (search env query) s) = ls_playlist s /\
    isPlaying (exec (search env query) s) = isPlaying s /\
    calls (exec (search env query) s) = calls s.
Proof.
  destruct (searchPlaylist_frame env s query) as [r [rc H]].
  exists rc. unfold exec, search. rewrite H. simpl. auto.
Qed.

Lemma searchPlaylist_without_id {rt : Runtime} env s query :
  env_root_by_id env = false -> trim query <> [] ->
  exec (searchPlaylist env query) s = s.
Proof.
  intros Hid Hq. unfold exec, searchPlaylist.
  destruct (toLowerCase (trim query)) as [|c n] eqn:En.
  { exfalso. apply Hq, toLowerCase_nonempty, En. }
  rewrite bind_get.
  destruct (filter_playlist (c :: n) (playlist s)) as [filtered|e].
  - rewrite bind_lift_Ok, Hid. reflexivity.
  - reflexivity.
Qed.

(** X4.  A search for a query that is not blank looks the container up by
    its id only.  On a page without [#playlist-root] it changes nothing,
    even where an element of class [playlist-root] exists, the element
    [buildPlaylistUI] falls back to; with the id present and no track kept,
    the container shows the "No results" message. *)
Theorem search_uses_id_container_only {rt : Runtime} env s query :
  trim query <> [] ->
  (env_root_by_id env = false -> exec (search env query) s = s) /\
  (env_root_by_id env = true ->
   filter_playlist (toLowerCase (trim query)) (playlist s) = Ok [] ->
   search env query s = (Ok tt, set_root (Placeholder DEFAULT_EMPTY_MESSAGE) s)).
Proof.
  intros Hq. split.
  - intros Hid. exact (searchPlaylist_without_id env s query Hid Hq).
  - intros Hid Hf. unfold search, searchPlaylist.
    destruct (toLowerCase (trim query)) as [|c n] eqn:En.
    { exfalso. apply Hq, toLowerCase_nonempty, En. }
    rewrite bind_get, Hf, bind_lift_Ok, Hid. reflexivity.
Qed.

(** A render does not depend on what the container shows. *)
Lemma buildPlaylistUI_after_set_root {rt : Runtime} env s rc :
  env_root_by_id env || env_root_by_class env = true ->
  fst (buildPlaylistUI env s) = Ok tt ->
  buildPlaylistUI env (set_root rc s) = buildPlaylistUI env s.
Proof.
  intros Hc. unfold buildPlaylistUI. rewrite Hc. cbn [negb].
  rewrite !bind_get. cbn [playlist set_root].
  destruct (playlist s) as [| | | | |a [|x l]|]; try reflexivity.
  destruct (mapiM build_item (x :: l) 0) as [lis|e].
  - reflexivity.
  - rewrite bind_lift_Throw. discriminate.
Qed.

(** X5.  A blank search brings the whole list back: after any search, a
    search for a blank query leaves the state that rendering the whole
    playlist would have left in the first place, provided that render
    returns. *)
Theorem blank_search_restores_full_list {rt : Runtime} env s query blank :
  toLowerCase (trim blank) = [] ->
  fst (buildPlaylistUI env s) = Ok tt ->
  exec (search env blank) (exec (search env query) s)
  = exec (buildPlaylistUI env) s.
Proof.
  intros Hb Hret.
  assert (Hblank : forall s0, search env blank s0 = buildPlaylistUI env s0).
  { intros s0. unfold search, searchPlaylist. rewrite Hb. reflexivity. }
  unfold exec at 1. rewrite Hblank.
  destruct (env_root_by_id env || env_root_by_class env) eqn:Hc.
  - destruct (searchPlaylist_frame env s query) as [r [rc H]].
    unfold exec, search. rewrite H. cbn [snd].
    rewrite (buildPlaylistUI_after_set_root env s rc Hc Hret). reflexivity.
  - apply orb_false_iff in Hc. destruct Hc as [Hid Hcl].
    assert (Hs : exec (search env query) s = s).
    { unfold search. destruct (toLowerCase (trim query)) as [|c n] eqn:En.
      - unfold exec, searchPlaylist. rewrite En.
        unfold buildPlaylistUI. rewrite Hid, Hcl. reflexivity.
      - apply searchPlaylist_without_id; [exact Hid|].
        intros E. rewrite E in En.
        rewrite (toLowerCase_nonempty _ Hb) in Hb. congruence. }
    rewrite Hs. reflexivity.
Qed.

(** ** The active mark *)

Lemma mark_active_from_nth index lis : forall i k li,
  nth_error lis k = Some li ->
  exists li', nth_error (mark_active_from index i lis) k = Some li' /\
              li_active li' = Z.eqb (Z.of_nat (i + k)) index /\
              li_onclick li' = li_onclick li /\ li_text li' = li_text li /\
              li_index li' = li_index li.
Proof.
  induction lis as [|x lis IH]; intros i k li Hk.
  - destruct k; discriminate.
  - destruct k as [|k]; simpl in Hk.
    + injection Hk as <-. eexists. split; [reflexivity|].
      simpl. rewrite Nat.add_0_r. auto.
    + destruct (IH (S i) k li Hk) as [li' [H1 H2]].
      exists li'. simpl. rewrite Nat.add_succ_r. auto.
Qed.

Lemma mark_active_from_length index lis : forall i,
  length (mark_active_from index i lis) = length lis.
Proof. induction lis as [|x lis IH]; intros i; simpl; auto. Qed.

(** Once the items are marked, [playListItem] does not touch the container
    again, however it ends. *)
Lemma playListItem_root {rt : Runtime} env s index item :
  get_elem (playlist s) index = Ok item -> truthy item = true ->
  root (exec (playListItem env index) s) = mark_active index (root s).
Proof.
  intros Hg Ht. unfold exec, playListItem.
  rewrite bind_get, Hg, bind_lift_Ok, Ht. cbn [negb]. rewrite bind_modify.
  match goal with
  | |- root (snd (?m ?s0)) = ?R =>
      change ((fun st => root st = R) (exec m s0));
      assert (Hpres : preserves (fun st => root st = R) m)
        by (preserve);
      apply Hpres; reflexivity
  end.
Qed.

(** X6.  [playListItem], given an index that holds a track, marks the
    rendered items by position: once it is done (returned or thrown) the
    item at position [k] is active exactly when [k] is the index played, and
    every item keeps its handler, caption and [data-index].  So at most one
    item is active, and none when the index is beyond the rendered items, as
    it can be in a filtered list. *)
Theorem playListItem_marks_by_position {rt : Runtime} env s index item lis :
  get_elem (playlist s) index = Ok item -> truthy item = true ->
  root s = Items lis ->
  exists lis',
    root (exec (playListItem env index) s) = Items lis' /\
    length lis' = length lis /\
    forall k li, nth_error lis k = Some li ->
      exists li', nth_error lis' k = Some li' /\
                  li_active li' = Z.eqb (Z.of_nat k) index /\
                  li_onclick li' = li_onclick li /\
                  li_text li' = li_text li /\ li_index li' = li_index li.
Proof.
  intros Hg Ht Hr.
  rewrite (playListItem_root env s index Hg Ht), Hr. simpl.
  eexists. split; [reflexivity|].
  split; [apply mark_active_from_length|].
  intros k li Hk. exact (mark_active_from_nth index lis 0 k Hk).
Qed.

(** ** Keys *)

Lemma eqb_neq (a b : jsstring) : a <> b -> JSString.eqb a b = false.
Proof.
  intros H. destruct (JSString.eqb a b) eqn:E; [|reflexivity].
  apply JSStringFacts.eqb_eq in E. contradiction.
Qed.

(** X7.  Space and Enter start playback once and never pause it: after the
    key [isPlaying] is set; pressing it while [isPlaying] is set does nothing
    at all, so a second press changes nothing the first has not. *)
Theorem keydown_play_key_once env s key :
  key = str " " \/ key = str "Enter" ->
  isPlaying (exec (handleKeydown env key) s) = true /\
  (isPlaying s = true -> handleKeydown env key s = (Ok tt, s)) /\
  exec (handleKeydown env key) (exec (handleKeydown env key) s)
  = exec (handleKeydown env key) s.
Proof.
  intros Hk.
  assert (Hplaying : forall s0, isPlaying s0 = true ->
                                handleKeydown env key s0 = (Ok tt, s0)).
  { intros s0 H0. unfold handleKeydown. rewrite bind_get, H0.
    destruct Hk as [-> | ->]; reflexivity. }
  assert (Hset : isPlaying (exec (handleKeydown env key) s) = true).
  { destruct (isPlaying s) eqn:E.
    - unfold exec. rewrite (Hplaying s E). exact E.
    - unfold exec, handleKeydown. rewrite bind_get, E.
      destruct Hk as [-> | ->]; reflexivity. }
  split; [exact Hset|]. split; [exact (Hplaying s)|].
  unfold exec at 1. rewrite (Hplaying _ Hset). reflexivity.
Qed.

(** X8.  A key other than Space, Enter, "/" and Escape is ignored: the
    handler returns and the state is as it was. *)
Theorem keydown_ignores_other_keys env s key :
  key <> str " " -> key <> str "Enter" -> key <> str "/" ->
  key <> str "Escape" ->
  handleKeydown env key s = (Ok tt, s).
Proof.
  intros H1 H2 H3 H4. unfold handleKeydown.
  rewrite bind_get, (eqb_neq H1), (eqb_neq H2), (eqb_neq H3), (eqb_neq H4).
  rewrite andb_false_r. reflexivity.
Qed.

(** ** The theme *)

Section Theme.

Context {rt : Runtime}.
Variable env : Env.

Lemma theme_icon_dark : theme_icon (str "dark") = ICON_DARK.
Proof. reflexivity. Qed.

Lemma theme_synced_initializeTheme s :
  theme_synced env (exec (initializeTheme env) s).
Proof.
  unfold exec, initializeTheme. rewrite bind_get.
  destruct (ls_theme s) as [[|c saved]|] eqn:E.
  - exists (str "dark").
    destruct (env_theme_toggle env); simpl; repeat split; auto; discriminate.
  - exists (c :: saved).
    destruct (env_theme_toggle env); simpl; repeat split; auto; discriminate.
  - exists (str "dark").
    destruct (env_theme_toggle env); simpl; repeat split; auto; discriminate.
Qed.

Lemma themeToggleClick_run s :
  env_theme_toggle env = true ->
  exists next,
    (next = str "light" \/ next = str "dark") /\
    (next = str "dark" <->
     match data_theme s with
     | Some t => t = str "light"
     | None => False
     end) /\
    themeToggleClick env s
    = (Ok tt, set_ls_theme next
                (set_toggle_text (theme_icon next) (set_data_theme next s))).
Proof.
  intros Ht. unfold themeToggleClick. rewrite Ht. cbn [when].
  rewrite bind_get.
  destruct (data_theme s) as [[|c t]|] eqn:E.
  - exists (str "light"). split; [auto|]. split; [|reflexivity].
    split; intros H; discriminate.
  - destruct (JSString.eqb (c :: t) (str "light")) eqn:El.
    + exists (str "dark"). split; [auto|]. split; [|reflexivity].
      apply JSStringFacts.eqb_eq in El. tauto.
    + exists (str "light"). split; [auto|]. split; [|reflexivity].
      split; [discriminate|]. intros H. rewrite H in El. discriminate.
  - exists (str "light"). split; [auto|]. split; [|reflexivity].
    split; [discriminate | tauto].
Qed.

Lemma theme_synced_themeToggleClick :
  preserves (theme_synced env) (themeToggleClick env).
Proof.
  intros s H.
  destruct (env_theme_toggle env) eqn:Ht.
  - destruct (themeToggleClick_run s Ht) as [next [Hn [_ Hrun]]].
    unfold exec. rewrite Hrun. exists next. simpl.
    repeat split; auto. destruct Hn as [-> | ->]; discriminate.
  - unfold exec, themeToggleClick. rewrite Ht. exact H.
Qed.

Lemma preserves_fresh (P : State -> Prop) :
  (forall n s, P s -> P (set_next_id n s)) -> preserves P fresh.
Proof. intros HP s H. apply HP, H. Qed.

Lemma preserves_parse (P : State -> Prop) text :
  (forall n s, P s -> P (set_next_id n s)) -> preserves P (parse text).
Proof.
  intros HP s H. unfold exec, parse.
  destruct (JSON_parse text); [|exact H].
  destruct (alloc _ _). apply HP, H.
Qed.

Lemma theme_synced_dispatch ev :
  preserves (theme_synced env) (dispatch env ev).
Proof.
  destruct ev; simpl;
    try apply theme_synced_themeToggleClick;
    unfold playIndex, search, add, load, load_saved, apply_fallback,
      addToPlaylist, searchPlaylist, click, run_handler, handler_target,
      playListItem, buildPlaylistUI, handleKeydown, onManifestParsed,
      onQualityChange;
    preserve_with ltac:(first
      [ apply preserves_fresh; intros; hnf in *; simpl; solve [auto]
      | apply preserves_parse; intros; hnf in *; simpl; solve [auto] ]).
Qed.

Lemma theme_synced_run evs : forall s,
  theme_synced env s -> theme_synced env (run env evs s).
Proof.
  induction evs as [|ev evs IH]; intros s H; simpl.
  - exact H.
  - apply IH, theme_synced_dispatch, H.
Qed.

End Theme.

(** X9.  The stored theme never disagrees with the page.  Once the script
    has started, and after every sequence of events, [localStorage] holds the
    very theme the [data-theme] attribute shows, a non-empty string, and the
    toggle (where the page has one) bears the icon of that theme. *)
Theorem theme_stays_in_sync {rt : Runtime} env saved_playlist saved_theme attr evs :
  theme_synced env (session env saved_playlist saved_theme attr evs).
Proof.
  unfold session. apply theme_synced_run, theme_synced_initializeTheme.
Qed.

(** X10.  The toggle switches between the two themes: a click leaves the
    theme [dark] when it was [light] and [light] in every other case, on the
    page and in the storage alike; and from [light] or [dark], with storage
    and icon in agreement, two clicks restore the state as it was. *)
Theorem theme_toggle_twice env s :
  env_theme_toggle env = true ->
  (exists next,
     (next = str "light" \/ next = str "dark") /\
     (next = str "dark" <-> data_theme s = Some (str "light")) /\
     data_theme (exec (themeToggleClick env) s) = Some next /\
     ls_theme (exec (themeToggleClick env) s) = Some next /\
     toggle_text (exec (themeToggleClick env) s) = Some (theme_icon next)) /\
  (theme_synced env s ->
   data_theme s = Some (str "light") \/ data_theme s = Some (str "dark") ->
   exec (themeToggleClick env) (exec (themeToggleClick env) s) = s).
Proof.
  intros Ht. split.
  - destruct (themeToggleClick_run env s Ht) as [next [Hn [Hd Hrun]]].
    exists next. unfold exec. rewrite Hrun. simpl.
    split; [exact Hn|]. split; [|auto].
    rewrite Hd. destruct (data_theme s) as [t|].
    + split; [intros ->; reflexivity | intros E; injection E; auto].
    + split; [tauto | discriminate].
  - intros [t [_ [Hdt [Hls Htt]]]] Hcur.
    specialize (Htt Ht).
    assert (Ht2 : t = str "light" \/ t = str "dark")
      by (rewrite Hdt in Hcur; destruct Hcur as [E | E]; injection E; auto).
    destruct s. simpl in *. subst.
    unfold exec, themeToggleClick. rewrite Ht.
    destruct Ht2 as [-> | ->]; reflexivity.
Qed.

(** ** What the handlers leave alone *)

(** Walks through the handler of an event, down to its state updates. *)
Ltac walk_handlers :=
  unfold playIndex, search, add, load, load_saved, apply_fallback,
    addToPlaylist, searchPlaylist, click, run_handler, handler_target,
    playListItem, buildPlaylistUI, handleKeydown, themeToggleClick,
    initializeTheme, onManifestParsed, onQualityChange;
  preserve_with ltac:(first
    [ apply preserves_fresh; intros; hnf in *; simpl; solve [auto]
    | apply preserves_parse; intros; hnf in *; simpl; solve [auto] ]).

Lemma load_saved_returns {rt : Runtime} s : exists s1, load_saved s = (Ok tt, s1).
Proof.
  unfold load_saved. rewrite bind_get.
  destruct (ls_playlist s) as [[|c text]|]; try (eexists; reflexivity).
  unfold try_catch, bind, parse.
  destruct (JSON_parse (c :: text)) as [j|].
  - destruct (alloc j (next_id s)). eexists; reflexivity.
  - eexists; reflexivity.
Qed.

(** The playlist variable has its final value once the fallback is done. *)
Lemma load_playlist {rt : Runtime} env s s1 s2 :
  load_saved s = (Ok tt, s1) -> apply_fallback s1 = (Ok tt, s2) ->
  playlist (exec (load env) s) = playlist s2.
Proof.
  intros H1 H2. unfold exec, load.
  rewrite (bind_Ok _ _ _ H1), (bind_Ok _ _ _ H2).
  destruct (buildPlaylistUI_frame env s2) as [r [s3 [H3 Hs3]]].
  destruct r as [[]|e].
  - rewrite (bind_Ok _ _ _ H3), modify_run.
    destruct Hs3 as [-> | [rc ->]]; reflexivity.
  - rewrite (bind_Throw _ _ _ H3).
    destruct Hs3 as [-> | [rc ->]]; reflexivity.
Qed.

(** X11.  The load handler never leaves the playlist empty: whatever the
    storage holds and whatever the playlist was, and whether the handler
    returns or its render throws, the playlist is afterwards a truthy value
    whose [length] is not [0]. *)
Theorem load_leaves_playlist_non_empty {rt : Runtime} env s :
  truthy (playlist (exec (load env) s)) = true /\
  has_length_zero (playlist (exec (load env) s)) = false.
Proof.
  destruct (load_saved_returns s) as [s1 H1].
  destruct (apply_fallback_run s1) as [s2 [H2 [Hp2 _]]].
  rewrite (load_playlist env s H1 H2), Hp2.
  destruct (negb (truthy (playlist s1)) || has_length_zero (playlist s1)) eqn:E.
  - split; reflexivity.
  - apply orb_false_iff in E. destruct E as [Et Ez].
    apply negb_false_iff in Et. auto.
Qed.

Section Storage.

Context {rt : Runtime}.
Variable env : Env.

Lemma ls_playlist_dispatch v ev :
  is_add ev = false ->
  preserves (fun st => ls_playlist st = v) (dispatch env ev).
Proof. destruct ev; simpl; try discriminate; intros _; walk_handlers. Qed.

Lemma ls_theme_dispatch v ev :
  is_theme_toggle ev = false ->
  preserves (fun st => ls_theme st = v) (dispatch env ev).
Proof. destruct ev; simpl; try discriminate; intros _; walk_handlers. Qed.

End Storage.

(** X12.  Of all the events only [add] writes the saved playlist and only a
    click on the theme toggle writes the saved theme.  In particular the
    load handler never writes the storage: the demo tracks it falls back to
    are not saved. *)
Theorem storage_has_two_writers {rt : Runtime} env s ev :
  (is_add ev = false ->
   ls_playlist (exec (dispatch env ev) s) = ls_playlist s) /\
  (is_theme_toggle ev = false ->
   ls_theme (exec (dispatch env ev) s) = ls_theme s).
Proof.
  split; intros H.
  - exact (@ls_playlist_dispatch _ env (ls_playlist s) ev H s eq_refl).
  - exact (@ls_theme_dispatch _ env (ls_theme s) ev H s eq_refl).
Qed.

(** ** The playlist only grows *)

Lemma playlist_dispatch {rt : Runtime} env v ev :
  is_add ev = false -> is_load ev = false ->
  preserves (fun st => playlist st = v) (dispatch env ev).
Proof.
  destruct ev; simpl; try discriminate; intros _ _; walk_handlers.
Qed.

Lemma run_without_load {rt : Runtime} env evs : forall s id l,
  existsb is_load evs = false -> playlist s = VArr id l ->
  playlist (run env evs s) = VArr id (l ++ added_items evs).
Proof.
  induction evs as [|ev evs IH]; intros s id l Hl Hp; simpl.
  - rewrite app_nil_r. exact Hp.
  - simpl in Hl. apply orb_false_iff in Hl. destruct Hl as [Hev Hl].
    destruct (is_add ev) eqn:Ea.
    + destruct ev; try discriminate. simpl. unfold add.
      destruct (@addToPlaylist_array _ env s id l item Hp) as [Hp1 _].
      rewrite (IH _ _ _ Hl Hp1), <- app_assoc. reflexivity.
    + assert (Hp1 : playlist (exec (dispatch env ev) s) = VArr id l)
        by exact (@playlist_dispatch _ env _ ev Ea Hev s Hp).
      rewrite (IH _ _ _ Hl Hp1). f_equal. f_equal.
      destruct ev; try discriminate; reflexivity.
Qed.

(** X13.  Between two page loads the playlist only grows.  Over any
    sequence of events without DOMContentLoaded (clicks, keys, searches,
    plays, timer and player callbacks, theme toggles, and calls of [add] in
    between) the playlist stays the same array, holding what it held, in the
    same order, followed by the tracks handed to [add], in call order:
    nothing is removed, replaced or reordered. *)
Theorem playlist_only_grows {rt : Runtime} env s id l evs :
  existsb is_load evs = false -> playlist s = VArr id l ->
  getPlaylist (run env evs s) = VArr id (l ++ added_items evs).
Proof. intros Hl Hp. exact (run_without_load env evs s Hl Hp). Qed.

(** ** Hls instances and quality listeners *)

Lemma set_level_sources hs : forall n level,
  map hls_source (set_level hs n level) = map hls_source hs.
Proof.
  induction hs as [|h hs IH]; intros [|n] level; simpl; try reflexivity.
  rewrite IH. reflexivity.
Qed.

Lemma set_level_length hs : forall n level,
  length (set_level hs n level) = length hs.
Proof.
  induction hs as [|h hs IH]; intros [|n] level; simpl; auto.
Qed.

Lemma set_level_nth hs : forall n level,
  n < length hs ->
  exists h, nth_error (set_level hs n level) n = Some h /\
            hls_currentLevel h = Some level.
Proof.
  induction hs as [|h hs IH]; intros [|n] level Hn; simpl in *; try lia.
  - eexists; split; reflexivity.
  - apply IH. lia.
Qed.

Lemma steer_sources quality ls : forall hs,
  map hls_source
    (fold_left (fun hs q => set_level hs (ql_hls q)
                              (options_indexOf (ql_options q) quality 0)) ls hs)
  = map hls_source hs.
Proof.
  induction ls as [|q ls IH]; intros hs; simpl; [reflexivity|].
  rewrite IH. apply set_level_sources.
Qed.

Lemma steer_length quality ls : forall hs,
  length
    (fold_left (fun hs q => set_level hs (ql_hls q)
                              (options_indexOf (ql_options q) quality 0)) ls hs)
  = length hs.
Proof.
  induction ls as [|q ls IH]; intros hs; simpl; [reflexivity|].
  rewrite IH. apply set_level_length.
Qed.

Section Accumulate.

Context {rt : Runtime}.
Variable env : Env.
Variable base_h : list JSValue.
Variable base_l : list QualityListener.

Lemma accumulated_new_hls url :
  preserves (accumulated base_h base_l) (modify (new_hls url)).
Proof.
  intros s [[more Hh] Hl]. split; [|exact Hl].
  exists (more ++ [url]). unfold exec, modify, hls_sources, new_hls. simpl.
  unfold hls_sources in Hh. rewrite map_app, Hh, <- app_assoc. reflexivity.
Qed.

Lemma accumulated_playListItem index :
  preserves (accumulated base_h base_l) (playListItem env index).
Proof.
  unfold playListItem.
  preserve_with ltac:(apply accumulated_new_hls).
Qed.

Lemma accumulated_onManifestParsed n levels :
  preserves (accumulated base_h base_l) (onManifestParsed n levels).
Proof.
  unfold onManifestParsed. preserve.
  apply preserves_modify. intros s [Hh [more Hl]]. split; [exact Hh|].
  eexists. simpl. rewrite Hl, <- app_assoc. reflexivity.
Qed.

Lemma accumulated_onQualityChange quality :
  preserves (accumulated base_h base_l) (onQualityChange quality).
Proof.
  intros s [[more Hh] Hl]. split; [|exact Hl].
  exists more. unfold exec, onQualityChange, modify, hls_sources. simpl.
  rewrite steer_sources. exact Hh.
Qed.

Lemma accumulated_dispatch ev :
  preserves (accumulated base_h base_l) (dispatch env ev).
Proof.
  destruct ev; simpl;
    try apply accumulated_onQualityChange;
    unfold playIndex, search, add, load, load_saved, apply_fallback,
      addToPlaylist, searchPlaylist, click, run_handler, handler_target,
      buildPlaylistUI, handleKeydown, themeToggleClick;
    preserve_with ltac:(first
      [ apply accumulated_playListItem
      | apply accumulated_onManifestParsed
      | apply preserves_fresh; intros; hnf in *; simpl; solve [auto]
      | apply preserves_parse; intros; hnf in *; simpl; solve [auto] ]).
Qed.

Lemma accumulated_run evs : forall s,
  accumulated base_h base_l s -> accumulated base_h base_l (run env evs s).
Proof.
  induction evs as [|ev evs IH]; intros s H; simpl.
  - exact H.
  - apply IH, accumulated_dispatch, H.
Qed.

End Accumulate.

(** X14.  Nothing is ever torn down.  Over any sequence of events the Hls
    instances created so far stay, with the sources they were given, and the
    [qualitychange] listeners registered so far stay registered; new ones
    come after them.  An instance made for a track played earlier is thus
    still steered by its listener when another track plays. *)
Theorem hls_instances_accumulate {rt : Runtime} env s evs :
  exists newer_sources newer_listeners,
    hls_sources (run env evs s) = hls_sources s ++ newer_sources /\
    quality_listeners (run env evs s) = quality_listeners s ++ newer_listeners.
Proof.
  assert (H : accumulated (hls_sources s) (quality_listeners s) (run env evs s)).
  { apply accumulated_run. split; exists []; rewrite app_nil_r; reflexivity. }
  destruct H as [[mh Hh] [ml Hl]]. exists mh, ml. auto.
Qed.

Lemma options_indexOf_found opts o : forall i k,
  nth_error opts k = Some o ->
  exists k', options_indexOf opts (VStr o) i = Z.of_nat (i + k') /\
             nth_error opts k' = Some o /\ k' <= k.
Proof.
  induction opts as [|x opts IH]; intros i k Hk.
  - destruct k; discriminate.
  - simpl. destruct (JSString.eqb x o) eqn:E.
    + apply JSStringFacts.eqb_eq in E. subst x.
      exists 0. rewrite Nat.add_0_r. repeat split; [lia].
    + destruct k as [|k]; simpl in Hk.
      * injection Hk as ->. rewrite JSStringFacts.eqb_refl in E. discriminate.
      * destruct (IH (S i) k Hk) as [k' [H1 [H2 H3]]].
        exists (S k'). rewrite Nat.add_succ_r. repeat split; [exact H1 | exact H2 | lia].
Qed.

Lemma options_indexOf_missing opts q : forall i,
  (forall o, In o opts -> q <> VStr o) -> options_indexOf opts q i = (-1)%Z.
Proof.
  induction opts as [|x opts IH]; intros i H; cbn [options_indexOf];
    [reflexivity|].
  destruct (strict_eq (VStr x) q) eqn:E.
  - exfalso. destruct q; simpl in E; try discriminate.
    apply JSStringFacts.eqb_eq in E. subst s.
    exact (H x (or_introl eq_refl) eq_refl).
  - apply IH. intros o Ho. apply H. right. exact Ho.
Qed.

Lemma mapM_length A B (f : A -> Res B) l : forall r,
  mapM f l = Ok r -> length r = length l.
Proof.
  induction l as [|x l IH]; intros r H; simpl in H.
  - injection H as <-. reflexivity.
  - destruct (f x); [simpl in H | discriminate].
    destruct (mapM f l) as [r'|]; [simpl in H | discriminate].
    injection H as <-. simpl. rewrite (IH r' eq_refl). reflexivity.
Qed.

(** The level of the instance whose listener was registered last. *)
Lemma steer_last {rt : Runtime} s n opts quality :
  n < length (hls s) ->
  current_level
    (exec (onQualityChange quality)
          (add_quality_listener {| ql_hls := n; ql_options := opts |} s)) n
  = Some (options_indexOf opts quality 0).
Proof.
  intros Hn. unfold exec, onQualityChange, modify, current_level. simpl.
  rewrite fold_left_app. simpl.
  match goal with
  | |- context [set_level ?hs n ?lvl] =>
      destruct (@set_level_nth hs n lvl) as [h [-> Hh]]
  end.
  - rewrite steer_length. exact Hn.
  - exact Hh.
Qed.

(** X15.  Choosing a quality selects the level it was built from.  When the
    manifest of an instance the script created is parsed, the labels built
    from its levels (one per level) become the player's quality options;
    a later [qualitychange] for the label of level [k] sets that instance's
    [currentLevel] to the first position holding this label, which is [k]
    when no two levels share a label, and a quality that is none of the
    labels sets it to [-1]. *)
Theorem quality_choice_sets_level {rt : Runtime} env s n id ls labels :
  n < length (hls s) -> mapM quality_label ls = Ok labels ->
  let s1 := exec (dispatch env (ManifestParsed n (VArr id ls))) s in
  quality_options s1 = labels /\ length labels = length ls /\
  (forall k o, nth_error labels k = Some o ->
     exists k',
       current_level (exec (dispatch env (QualityChange (VStr o))) s1) n
       = Some (Z.of_nat k') /\
       nth_error labels k' = Some o /\ k' <= k /\
       (NoDup labels -> k' = k)) /\
  (forall q, (forall o, In o labels -> q <> VStr o) ->
     current_level (exec (dispatch env (QualityChange q)) s1) n
     = Some (-1)%Z).
Proof.
  intros Hn Hm s1.
  assert (Hs1 : s1 = add_quality_listener {| ql_hls := n; ql_options := labels |}
                       (add_call PlyrOnQualityChange
                          (set_quality_options labels s))).
  { unfold s1, exec. simpl dispatch. rewrite bind_get.
    apply Nat.ltb_lt in Hn. rewrite Hn. cbn [when].
    unfold onManifestParsed. cbn [truthy]. rewrite Hm, bind_lift_Ok.
    reflexivity. }
  split; [rewrite Hs1; reflexivity|].
  split; [exact (mapM_length _ _ Hm)|].
  split.
  - intros k o Hk.
    destruct (options_indexOf_found labels 0 k Hk) as [k' [H1 [H2 H3]]].
    exists k'. simpl dispatch. rewrite Hs1, steer_last by exact Hn.
    rewrite H1. repeat split; auto.
    intros Hnd. apply (proj1 (NoDup_nth_error labels) Hnd).
    + apply nth_error_Some. congruence.
    + congruence.
  - intros q Hq. simpl dispatch. rewrite Hs1, steer_last by exact Hn.
    rewrite (@options_indexOf_missing labels q 0 Hq). reflexivity.
Qed.

(** ** Loading a saved array *)

(** [JSON.parse] of an array text: a new array, one element per element of
    the text, a [null] where the text has one. *)
Lemma alloc_array js n :
  exists vs m,
    alloc (J_array js) n = (VArr n vs, m) /\ length vs = length js /\
    forall k, nth_error js k = Some J_null -> nth_error vs k = Some VNull.
Proof.
  simpl.
  match goal with
  | |- context [let (_, _) := ?F js (S n) in _] => set (elems := F)
  end.
  assert (H : forall js m0, exists vs m,
            elems js m0 = (vs, m) /\ length vs = length js /\
            forall k, nth_error js k = Some J_null -> nth_error vs k = Some VNull).
  { clear. induction js as [|x js IH]; intros m0; simpl.
    - exists [], m0. repeat split. intros [|k]; discriminate.
    - destruct (alloc x m0) as [v m1] eqn:Ex.
      destruct (IH m1) as [vs [m2 [E [Hlen Hnull]]]]. rewrite E.
      exists (v :: vs), m2. split; [reflexivity|]. split; [simpl; congruence|].
      intros [|k] Hk; simpl in Hk.
      + injection Hk as ->. simpl in Ex. injection Ex as <- _. reflexivity.
      + simpl. apply Hnull, Hk. }
  destruct (H js (S n)) as [vs [m [E [Hlen Hnull]]]].
  exists vs, m. rewrite E. auto.
Qed.

(** The handler up to the render, for a saved text that is a non-empty
    array. *)
Lemma load_saved_array {rt : Runtime} env s text x xs :
  ls_playlist s = Some text -> text <> [] ->
  JSON_parse text = Some (J_array (x :: xs)) ->
  exists l m,
    alloc (J_array (x :: xs)) (next_id s) = (VArr (next_id s) l, m) /\
    length l = S (length xs) /\
    (forall k, nth_error (x :: xs) k = Some J_null -> nth_error l k = Some VNull) /\
    load env s
    = (buildPlaylistUI env ;; modify (add_call (SetTimeout (PlayIndex 0) 50)))
        (set_playlist (VArr (next_id s) l) (set_next_id m s)).
Proof.
  intros Hls Hne Hparse.
  destruct (alloc_array (x :: xs) (next_id s)) as [l [m [Ea [Hlen Hnull]]]].
  exists l, m. split; [exact Ea|]. split; [exact Hlen|]. split; [exact Hnull|].
  assert (H1 : load_saved s
               = (Ok tt, set_playlist (VArr (next_id s) l) (set_next_id m s))).
  { unfold load_saved. rewrite bind_get, Hls.
    destruct text as [|c text]; [congruence|].
    unfold try_catch, bind, parse. rewrite Hparse, Ea. reflexivity. }
  unfold load. rewrite (bind_Ok _ _ _ H1).
  unfold apply_fallback. rewrite bind_assoc, bind_get, needs_fallback_spec.
  cbn [playlist set_playlist truthy negb orb has_length_zero].
  destruct l; [discriminate | reflexivity].
Qed.

(** The render and the timer leave the playlist variable alone. *)
Lemma load_tail_playlist {rt : Runtime} env s :
  playlist (exec (buildPlaylistUI env ;;
                  modify (add_call (SetTimeout (PlayIndex 0) 50))) s)
  = playlist s.
Proof.
  unfold exec.
  destruct (buildPlaylistUI_frame env s) as [r [s2 [H2 Hs2]]].
  destruct r as [[]|e].
  - rewrite (bind_Ok _ _ _ H2), modify_run.
    destruct Hs2 as [-> | [rc ->]]; reflexivity.
  - rewrite (bind_Throw _ _ _ H2).
    destruct Hs2 as [-> | [rc ->]]; reflexivity.
Qed.

(** X16.  A saved text that is a non-empty JSON array becomes the playlist
    as it is: a new array with one entry per element of the text, never the
    demo tracks.  If its entries can be rendered the handler returns, having
    rendered one item per entry (on a page with a container) and set the
    timer that plays the first.  If the text holds a [null], the render
    throws a TypeError on such a page: the container keeps what it showed
    and the timer is never set. *)
Theorem load_takes_saved_array {rt : Runtime} env s text x xs :
  ls_playlist s = Some text -> text <> [] ->
  JSON_parse text = Some (J_array (x :: xs)) ->
  exists l,
    playlist (exec (load env) s) = VArr (next_id s) l /\
    length l = S (length xs) /\
    (forallb renderable l = true ->
     exists s',
       load env s = (Ok tt, s') /\
       calls s' = calls s ++ [SetTimeout (PlayIndex 0) 50] /\
       (env_root_by_id env || env_root_by_class env = true ->
        length (items (root s')) = length l)) /\
    (In J_null (x :: xs) ->
     env_root_by_id env || env_root_by_class env = true ->
     exists s',
       load env s = (Throw TypeError, s') /\
       calls s' = calls s /\ root s' = root s).
Proof.
  intros Hls Hne Hparse.
  destruct (@load_saved_array _ env s text x xs Hls Hne Hparse)
    as [l [m [Ea [Hlen [Hnull Hload]]]]].
  exists l.
  set (s1 := set_playlist (VArr (next_id s) l) (set_next_id m s)) in *.
  assert (Hl : l <> []) by (destruct l; [discriminate | congruence]).
  split.
  { unfold exec. rewrite Hload. apply (load_tail_playlist env s1). }
  split; [exact Hlen|].
  split.
  - intros Hr. rewrite Hload.
    destruct (env_root_by_id env || env_root_by_class env) eqn:Hc.
    + destruct (@buildPlaylistUI_rendered _ env s1 (next_id s) l Hc eq_refl Hl Hr)
        as [lis [Hm H2]].
      rewrite (bind_Ok _ _ _ H2), modify_run.
      eexists. split; [reflexivity|]. split; [reflexivity|].
      intros _. simpl. exact (proj1 (mapiM_nth _ _ _ Hm)).
    + assert (H2 : buildPlaylistUI env s1 = (Ok tt, s1))
        by (unfold buildPlaylistUI; rewrite Hc; reflexivity).
      rewrite (bind_Ok _ _ _ H2), modify_run.
      eexists. split; [reflexivity|]. split; [reflexivity|]. discriminate.
  - intros Hin Hc. rewrite Hload.
    assert (Hnl : In VNull l).
    { destruct (In_nth_error _ _ Hin) as [k Hk].
      exact (nth_error_In _ _ (Hnull k Hk)). }
    assert (H2 : buildPlaylistUI env s1 = (Throw TypeError, s1)).
    { apply (@buildPlaylistUI_absent _ env s1 (next_id s) l); auto. }
    rewrite (bind_Throw _ _ _ H2). eexists. split; [reflexivity|]. auto.
Qed.

(** X17.  What [add] saved is what the next page load restores.  If the
    engine reads the text it wrote for the playlist back as a non-empty
    array, then the load handler run after [add] makes the playlist that
    array, built anew, and not the demo tracks. *)
Theorem added_playlist_survives_reload {rt : Runtime} env s id l item x xs :
  playlist s = VArr id l ->
  JSON_stringify (VArr id (l ++ [item])) <> [] ->
  JSON_parse (JSON_stringify (VArr id (l ++ [item]))) = Some (J_array (x :: xs)) ->
  let s1 := exec (add env item) s in
  ls_playlist s1 = Some (JSON_stringify (getPlaylist s1)) /\
  exists l',
    playlist (exec (load env) s1) = VArr (next_id s1) l' /\
    length l' = S (length xs).
Proof.
  intros Hp Hne Hparse s1.
  destruct (@addToPlaylist_array _ env s id l item Hp) as [Hp1 Hls1].
  fold (add env item) in Hp1, Hls1. fold s1 in Hp1, Hls1.
  split; [unfold getPlaylist; rewrite Hp1; exact Hls1|].
  destruct (@load_saved_array _ env s1 _ x xs Hls1 Hne Hparse)
    as [l' [m [Ea [Hlen [_ Hload]]]]].
  exists l'. split; [|exact Hlen].
  unfold exec. rewrite Hload. apply load_tail_playlist.
Qed.

(** ** The first visit *)

(** X18.  On a first visit (nothing saved, the playlist still empty) the
    load handler installs the two demo tracks and sets the timer, and when
    the timer fires the first demo track plays, whatever the page holds:
    through a new Hls instance when Hls.js is loaded and supported, since
    its URL is a manifest, and through the player's [src] otherwise. *)
Theorem first_visit_autoplays_first_demo {rt : Runtime} env s a :
  ls_playlist s = None -> playlist s = VArr a [] ->
  let url := VStr (str "https://example.com/stream1.m3u8") in
  let s' := run env [DOMContentLoaded; TimerFires] s in
  getPlaylist s' = demo_playlist (next_id s) /\
  isPlaying s' = true /\
  calls s' = calls s ++ [SetTimeout (PlayIndex 0) 50]
                     ++ (if hls_ready env then hls_attach url else [])
                     ++ [PlyrPlay] /\
  player_src s' = (if hls_ready env then player_src s
                   else Some (str "https://example.com/stream1.m3u8")).
Proof.
  intros Hls Hp url s'.
  assert (H12 : (load_saved ;; apply_fallback) s
                = (Ok tt, set_playlist (demo_playlist (next_id s))
                            (set_next_id (S (S (S (next_id s)))) s))).
  { unfold load_saved, apply_fallback.
    rewrite bind_assoc, bind_get, Hls, bind_ret, bind_get, Hp. reflexivity. }
  set (s2 := set_playlist (demo_playlist (next_id s))
               (set_next_id (S (S (S (next_id s)))) s)) in *.
  destruct (buildPlaylistUI_returns env s2) as [s3 [H3 Hs3]].
  { intros b l E. exact (demo_playlist_renderable E). }
  assert (Hload : load env s
                  = (Ok tt, add_call (SetTimeout (PlayIndex 0) 50) s3)).
  { unfold load. rewrite <- bind_assoc. unfold bind at 1. rewrite H12.
    cbv beta iota. rewrite (bind_Ok _ _ _ H3). reflexivity. }
  set (s4 := add_call (SetTimeout (PlayIndex 0) 50) s3) in *.
  assert (Hf : playlist s4 = demo_playlist (next_id s) /\
               calls s4 = calls s ++ [SetTimeout (PlayIndex 0) 50] /\
               player_src s4 = player_src s).
  { unfold s4. destruct Hs3 as [-> | [rc ->]]; simpl; auto. }
  destruct Hf as [Hp4 [Hc4 Hsrc4]].
  assert (Hplay : exists s5,
            playListItem env 0 s4 = (Ok tt, s5) /\
            playlist s5 = playlist s4 /\ isPlaying s5 = true /\
            root s5 = mark_active 0 (root s4) /\
            player_src s5 = (if hls_ready env then player_src s4
                             else Some (str "https://example.com/stream1.m3u8")) /\
            calls s5 = calls s4 ++ (if hls_ready env then hls_attach url else [])
                               ++ [PlyrPlay]).
  { eapply (@playListItem_plays _ env s4 (next_id s) _ 0%Z _ url (hls_ready env)
             (str "https://example.com/stream1.m3u8")).
    - exact Hp4.
    - lia.
    - reflexivity.
    - reflexivity.
    - reflexivity.
    - reflexivity.
    - unfold url. rewrite use_hls_string.
      replace (JSString.includes _ _) with true by reflexivity.
      rewrite andb_true_r. reflexivity.
    - reflexivity. }
  destruct Hplay as [s5 [H5 [Hp5 [Hi5 [_ [Hsrc5 Hc5]]]]]].
  assert (Hs' : s' = s5).
  { unfold s'. simpl run. unfold exec. rewrite Hload. cbn [snd].
    rewrite H5. reflexivity. }
  rewrite Hs'. unfold getPlaylist.
  rewrite Hp5, Hp4, Hi5, Hsrc5, Hsrc4, Hc5, Hc4, <- app_assoc. auto.
Qed.

(** ** Narrowing a search *)

Lemma includes_trans (t n2 n1 : jsstring) :
  JSString.includes t n2 = true -> JSString.includes n2 n1 = true ->
  JSString.includes t n1 = true.
Proof.
  rewrite !JSStringFacts.includes_app.
  intros [a [b ->]] [c [d ->]].
  exists (a ++ c), (d ++ b). rewrite <- !app_assoc. reflexivity.
Qed.

Lemma title_matches_narrows {rt : Runtime} n1 n2 it b2 :
  JSString.includes n2 n1 = true -> title_matches n2 it = Ok b2 ->
  exists b1, title_matches n1 it = Ok b1 /\ (b2 = true -> b1 = true).
Proof.
  intros Hn. unfold title_matches.
  destruct (negb (truthy it)); [eauto|].
  destruct (get_field it (str "title")) as [t|]; [simpl | discriminate].
  destruct (negb (truthy t)); [eauto|].
  destruct t; try discriminate.
  intros H; injection H as <-.
  eexists; split; [reflexivity|].
  intros H. exact (includes_trans _ _ _ H Hn).
Qed.

Lemma filterM_narrows A (f1 f2 : A -> Res bool) l :
  (forall x b2, f2 x = Ok b2 -> exists b1, f1 x = Ok b1 /\ (b2 = true -> b1 = true)) ->
  forall r2, filterM f2 l = Ok r2 ->
  exists r1, filterM f1 l = Ok r1 /\ Subseq r2 r1.
Proof.
  intros Hf. induction l as [|x l IH]; intros r2 H; simpl in H.
  - injection H as <-. exists []. split; [reflexivity | constructor].
  - destruct (f2 x) as [b2|] eqn:E2; [simpl in H | discriminate].
    destruct (filterM f2 l) as [r2'|]; [simpl in H | discriminate].
    injection H as <-.
    destruct (Hf x b2 E2) as [b1 [E1 Hb]].
    destruct (IH r2' eq_refl) as [r1' [Er1 Hsub]].
    simpl. rewrite E1, Er1. simpl. eexists; split; [reflexivity|].
    destruct b2.
    + rewrite (Hb eq_refl). constructor; exact Hsub.
    + destruct b1; [constructor|]; exact Hsub.
Qed.

(** X19.  A longer query narrows the result.  If the normalized form of one
    query occurs in that of another, then whenever the filter returns for
    the longer one it returns for the shorter one too, and the tracks kept
    for the longer query are among those kept for the shorter one, in the
    same order. *)
Theorem longer_query_narrows {rt : Runtime} shorter longer p kept :
  JSString.includes (toLowerCase (trim longer)) (toLowerCase (trim shorter)) = true ->
  filter_playlist (toLowerCase (trim longer)) p = Ok kept ->
  exists kept',
    filter_playlist (toLowerCase (trim shorter)) p = Ok kept' /\
    Subseq kept kept'.
Proof.
  intros Hn. destruct p; simpl; try discriminate.
  apply filterM_narrows. intros x b2. apply title_matches_narrows, Hn.
Qed.

(** ** onceWrapper *)

Section OnceFacts.

Variables Ctx Args R : Type.

Lemma spent_stays (context : Ctx) (calls : list Args) :
  Once.invoke_all (Once.Guarded context (@None (Once.Fn Ctx Args R))) calls
  = Once.Guarded context None.
Proof. induction calls as [|a calls IH]; simpl; auto. Qed.

Lemma inert_stays (calls : list Args) :
  Once.invoke_all (@Once.Inert Ctx Args R) calls = @Once.Inert Ctx Args R.
Proof. induction calls as [|a calls IH]; simpl; auto. Qed.

End OnceFacts.

(** X20.  The first runner a wrapper hands out applies its function until
    it has returned once, and never again ([fn] being a function that does
    not call the runner itself).  A call in which [fn] returns
    answers its result and spends the runner: every later call answers
    [undefined] without applying [fn].  A call in which [fn] throws passes
    the exception on and leaves the runner as it was, so the next call
    applies [fn] again. *)
Theorem once_runner_runs_fn_once (Ctx Args R : Type) (context : Ctx)
    (fn : Once.Fn Ctx Args R) (a : Args) :
  let r := fst (Once.wrap context (Some fn) Once.onceWrapper) in
  Once.applies r = true /\
  (forall res, fn context a = Ok res ->
     fst (Once.invoke r a) = Ok (Some res) /\
     forall later b,
       let r' := Once.invoke_all (snd (Once.invoke r a)) later in
       Once.applies r' = false /\ Once.invoke r' b = (Ok None, r')) /\
  (forall e, fn context a = Throw e -> Once.invoke r a = (Throw e, r)).
Proof.
  simpl. split; [reflexivity|]. split.
  - intros res E. rewrite E. simpl. split; [reflexivity|].
    intros later b. rewrite spent_stays. split; reflexivity.
  - intros e E. rewrite E. reflexivity.
Qed.

(** X21.  A wrapper guards its first use only.  Once it has handed out one
    runner, every runner it hands out later does nothing, whatever function
    it is given: called any number of times, it never applies the function
    and answers [undefined]. *)
Theorem once_later_runners_are_inert (Ctx Args R : Type)
    (c1 c2 : Ctx) (f1 f2 : option (Once.Fn Ctx Args R))
    (calls : list Args) (a : Args) :
  let called := snd (Once.wrap c1 f1 Once.onceWrapper) in
  let r2 := fst (Once.wrap c2 f2 called) in
  snd (Once.wrap c2 f2 called) = called /\
  Once.applies (Once.invoke_all r2 calls) = false /\
  Once.invoke (Once.invoke_all r2 calls) a = (Ok None, Once.Inert Ctx Args R).
Proof.
  simpl. rewrite inert_stays. repeat split.
Qed.

(** ** A track without a title *)

(** X22.  A track without a title gets two different defaults: the item
    rendered for it in the whole list is captioned "Untitled" (caption and
    image [alt]), while playing it empties the title label, where the page
    has one, and leaves the page alone where it has none. *)
Theorem untitled_track_has_two_defaults {rt : Runtime} env s id l index item t u :
  playlist s = VArr id l -> (0 <= index)%Z ->
  nth_error l (Z.to_nat index) = Some item -> truthy item = true ->
  get_field item (str "title") = Ok t -> truthy t = false ->
  resolve_url item = Ok (VStr u) ->
  (forall i li, build_item item i = Ok li ->
     li_text li = str "Untitled" /\ li_img_alt li = str "Untitled") /\
  player_title (exec (playListItem env index) s)
  = (if env_player_title env then Some [] else player_title s).
Proof.
  intros Hp Hi Hn Ht Htitle Hempty Hu. split.
  - intros i li Hb.
    destruct (build_item_fields _ _ Hb) as [_ [_ [_ [Halt [t' [Et' Htext]]]]]].
    rewrite Htitle in Et'. injection Et' as <-.
    unfold js_or in Htext. rewrite Hempty in Htext. simpl in Htext.
    injection Htext as Htext. rewrite Halt, <- Htext. auto.
  - unfold exec, playListItem. rewrite bind_get, Hp.
    rewrite (get_elem_array_in_range id l Hi Hn), bind_lift_Ok, Ht.
    cbn [negb]. rewrite bind_modify, Hu, bind_lift_Ok, use_hls_string.
    rewrite bind_lift_Ok.
    destruct (hls_ready env && JSString.includes u (str ".m3u8"));
      destruct (env_player_title env);
      unfold js_or; cbn [to_string];
      repeat (rewrite ?bind_assoc, ?bind_modify, ?bind_ret, ?Htitle,
                ?bind_lift_Ok, ?Hempty; cbn [to_string]);
      reflexivity.
Qed.

(** ** [add] after a saved value that is no array *)

(** X23.  A saved value that is not an array disables [add] for the visit.
    Once the load handler has taken a saved text that parses to a truthy
    value other than an array, with a [length] other than [0], as the
    playlist, every call of [add] throws a TypeError and changes nothing:
    the track is not appended and the storage keeps the saved text. *)
Theorem add_after_non_array_load {rt : Runtime} env s text j item :
  ls_playlist s = Some text -> text <> [] -> JSON_parse text = Some j ->
  (forall l, j <> J_array l) ->
  truthy (fst (alloc j (next_id s))) = true ->
  has_length_zero (fst (alloc j (next_id s))) = false ->
  let s1 := exec (load env) s in
  add env item s1 = (Throw TypeError, s1) /\
  ls_playlist (exec (add env item) s1) = Some text.
Proof.
  intros Hls Hne Hparse Hj Ht Hz s1.
  destruct (load_saved_parsed s Hls Hne Hparse) as [s2 [H2 [Hp2 _]]].
  destruct (apply_fallback_run s2) as [s3 [H3 [Hp3 _]]].
  rewrite Hp2, Ht, Hz in Hp3. simpl in Hp3.
  assert (Hp1 : playlist s1 = fst (alloc j (next_id s))).
  { unfold s1. rewrite (load_playlist env s H2 H3). exact Hp3. }
  assert (Hadd : add env item s1 = (Throw TypeError, s1)).
  { apply addToPlaylist_non_array. rewrite Hp1.
    apply alloc_not_array, Hj. }
  split; [exact Hadd|].
  unfold exec at 1. rewrite Hadd. cbn [snd]. rewrite <- Hls.
  exact (@ls_playlist_dispatch _ env (ls_playlist s) DOMContentLoaded
           eq_refl s eq_refl).
Qed.

(** ** A filtered render that fails *)

(** A value that is not printable cannot be converted to text. *)
Lemma to_string_unprintable {rt : Runtime} v :
  printable v = false -> to_string v = Throw TypeError.
Proof.
  intros H.
  destruct (to_string v) as [t|e] eqn:E.
  - exfalso. revert t H E.
    induction v as [| |b|x|s|id l IHl|id ps _] using JSValue_nested_ind;
      intros t H E; simpl in H; try discriminate.
    + simpl in E.
      assert (forall first t,
        (fix join (l : list JSValue) (first : bool) : Res jsstring :=
           match l with
           | [] => Ok []
           | x :: r =>
               res_bind (match x with
                         | VUndefined | VNull => Ok []
                         | _ => to_string x
                         end) (fun sx =>
               res_bind (join r false) (fun sr =>
               Ok ((if first then [] else str ",") ++ sx ++ sr)))
           end) l first = Ok t -> False) as Hjoin.
      { clear E t. induction l as [|y l IH]; intros first t E; [discriminate|].
        inversion IHl as [|? ? Py Pl]; subst.
        apply andb_false_iff in H.
        match type of E with
        | res_bind ?r _ = _ => destruct r as [sx|e1] eqn:Ey; [|discriminate]
        end.
        simpl in E.
        match type of E with
        | res_bind ?r _ = _ => destruct r as [sr|e2] eqn:Er; [|discriminate]
        end.
        destruct H as [Hy | Hl].
        - destruct y; try discriminate; exact (Py _ Hy Ey).
        - exact (IH Pl Hl false sr Er). }
      exact (Hjoin true t E).
    + simpl in E. destruct (lookup (str "toString") ps); discriminate.
  - rewrite (to_string_throws _ E). reflexivity.
Qed.

Lemma filtered_item_throws {rt : Runtime} it i e :
  filtered_item it i = Throw e -> e = TypeError.
Proof.
  unfold filtered_item. intros H.
  repeat match type of H with
         | res_bind ?r _ = _ =>
             let E := fresh "E" in
             destruct r eqn:E;
             [simpl in H
             | simpl in H; injection H as <-;
               first [exact (get_field_throws _ _ E) | exact (to_string_throws _ E)]]
         end.
  discriminate.
Qed.

Lemma filtered_item_unprintable_logo {rt : Runtime} it i :
  field_printable it (str "logo") = false -> filtered_item it i = Throw TypeError.
Proof.
  unfold field_printable, filtered_item.
  destruct (get_field it (str "logo")) as [lg|]; [|discriminate].
  intros H. simpl. rewrite (to_string_unprintable _ H). reflexivity.
Qed.

Lemma mapiM_filtered_item_unprintable {rt : Runtime} l : forall i,
  forallb (fun it => field_printable it (str "logo")) l = false ->
  mapiM filtered_item l i = Throw TypeError.
Proof.
  induction l as [|x l IH]; intros i H; simpl in H; [discriminate|].
  simpl. destruct (filtered_item x i) as [li|e] eqn:Ex.
  - apply andb_false_iff in H. destruct H as [H | H].
    + rewrite (filtered_item_unprintable_logo x i H) in Ex. discriminate.
    + rewrite (IH (S i) H). reflexivity.
  - simpl. rewrite (filtered_item_throws _ _ Ex). reflexivity.
Qed.

(** X24.  A filtered render is not all or nothing.  [searchPlaylist] clears
    the container before it builds the items, so when a kept track has a
    logo that does not convert to text the search throws a TypeError and
    leaves the container empty: neither the list it showed nor the "No
    results" message. *)
Theorem failed_filtered_render_empties_container {rt : Runtime} env s query kept :
  env_root_by_id env = true -> trim query <> [] ->
  filter_playlist (toLowerCase (trim query)) (playlist s) = Ok kept ->
  forallb (fun it => field_printable it (str "logo")) kept = false ->
  search env query s = (Throw TypeError, set_root (Items []) s).
Proof.
  intros Hid Hq Hf Hlogo. unfold search, searchPlaylist.
  destruct (toLowerCase (trim query)) as [|c n] eqn:En.
  { exfalso. apply Hq, toLowerCase_nonempty, En. }
  rewrite bind_get, Hf, bind_lift_Ok, Hid. cbn [negb].
  destruct kept as [|x kept]; [discriminate|].
  rewrite bind_modify, (mapiM_filtered_item_unprintable _ 0 Hlogo).
  reflexivity.
Qed.

(** ** The further theorems at concrete inputs *)


(** X2: a [null] after the first track. *)
Lemma buildPlaylistUI_all_or_nothing_witness :
  buildPlaylistUI (rt := engine) (Sample.page None)
    (Sample.state_of [Sample.alpha; VNull] None)
  = (Throw TypeError, Sample.state_of [Sample.alpha; VNull] None).
Proof.
  apply (proj2 (@buildPlaylistUI_all_or_nothing engine (Sample.page None)
                  (Sample.state_of [Sample.alpha; VNull] None))
               0 [Sample.alpha; VNull]);
    [reflexivity | reflexivity | left; simpl; auto].
Defined.

(** X4: a search on a page whose container has the class only. *)
Lemma search_uses_id_container_only_witness :
  exec (search (rt := engine) Fixture.page_by_class (str "beta")) Fixture.scenario
  = Fixture.scenario.
Proof.
  apply (proj1 (@search_uses_id_container_only engine Fixture.page_by_class
                  Fixture.scenario (str "beta") ltac:(discriminate)));
    reflexivity.
Defined.

(** X5: a search for "beta", then one for two spaces. *)
Lemma blank_search_restores_full_list_witness :
  let env := Sample.page None in
  exec (search (rt := engine) env (str "  "))
       (exec (search (rt := engine) env (str "beta")) Fixture.scenario)
  = exec (buildPlaylistUI (rt := engine) env) Fixture.scenario.
Proof.
  apply (@blank_search_restores_full_list engine (Sample.page None)
           Fixture.scenario (str "beta") (str "  "));
    reflexivity.
Defined.

(** X6: the second of the two rendered tracks is played. *)
Lemma playListItem_marks_by_position_witness :
  let env := Sample.page (Some true) in
  let lis := items (root Fixture.rendered) in
  exists lis',
    root (exec (playListItem (rt := engine) env 1) Fixture.rendered) = Items lis' /\
    length lis' = length lis /\
    forall k li, nth_error lis k = Some li ->
      exists li', nth_error lis' k = Some li' /\
                  li_active li' = Z.eqb (Z.of_nat k) 1 /\
                  li_onclick li' = li_onclick li /\
                  li_text li' = li_text li /\ li_index li' = li_index li.
Proof.
  apply (@playListItem_marks_by_position engine (Sample.page (Some true))
           Fixture.rendered 1 Sample.beta_show (items (root Fixture.rendered)));
    reflexivity.
Defined.

(** X7: Enter. *)
Lemma keydown_play_key_once_witness :
  let env := Sample.page None in
  let press := handleKeydown env (str "Enter") in
  isPlaying (exec press Fixture.scenario) = true /\
  (isPlaying Fixture.scenario = true -> press Fixture.scenario = (Ok tt, Fixture.scenario)) /\
  exec press (exec press Fixture.scenario) = exec press Fixture.scenario.
Proof.
  apply (@keydown_play_key_once (Sample.page None) Fixture.scenario
           (str "Enter")).
  right; reflexivity.
Defined.

(** X8: the letter "a". *)
Lemma keydown_ignores_other_keys_witness :
  handleKeydown (Sample.page None) (str "a") Fixture.scenario
  = (Ok tt, Fixture.scenario).
Proof.
  apply (@keydown_ignores_other_keys (Sample.page None)
           Fixture.scenario (str "a")); discriminate.
Defined.

(** X10: two clicks from the dark theme. *)
Lemma theme_toggle_twice_witness :
  let env := Sample.page None in
  exec (themeToggleClick env) (exec (themeToggleClick env) Fixture.scenario)
  = Fixture.scenario.
Proof.
  apply (proj2 (@theme_toggle_twice (Sample.page None) Fixture.scenario
                  eq_refl)).
  - exists (str "dark").
    split; [discriminate|]. split; [reflexivity|]. split; reflexivity.
  - right; reflexivity.
Defined.

(** X12: a first visit leaves the storage without a playlist. *)
Lemma storage_has_two_writers_witness :
  let env := Sample.page None in
  ls_playlist (exec (dispatch (rt := engine) env DOMContentLoaded)
                    (Sample.state_of [] None)) = None /\
  ls_theme (exec (dispatch (rt := engine) env (CallAdd Sample.alpha))
                 (Sample.state_of [] None)) = Some (str "dark").
Proof.
  split.
  - apply (proj1 (@storage_has_two_writers engine (Sample.page None)
                    (Sample.state_of [] None) DOMContentLoaded)).
    reflexivity.
  - apply (proj2 (@storage_has_two_writers engine (Sample.page None)
                    (Sample.state_of [] None) (CallAdd Sample.alpha))).
    reflexivity.
Defined.

(** X13: two calls of [add] among other events. *)
Lemma playlist_only_grows_witness :
  let evs := [ CallSearch (str "beta"); CallAdd Sample.silent; ClickItem 0;
               Keydown (str "/"); CallAdd Sample.legacy; TimerFires ] in
  getPlaylist (run (rt := engine) (Sample.page (Some true)) evs Fixture.scenario)
  = VArr 0 ([Sample.alpha; Sample.beta_show] ++ added_items evs).
Proof.
  apply (@playlist_only_grows engine (Sample.page (Some true)) Fixture.scenario
           0 [Sample.alpha; Sample.beta_show]);
    reflexivity.
Defined.

(** X15: a manifest with two levels. *)
Lemma quality_choice_sets_level_witness :
  let env := Sample.page (Some true) in
  let ls := [Fixture.level 360 500; Fixture.level 720 1000] in
  let labels := [str "360p @ 500"; str "720p @ 1000"] in
  let s1 := exec (dispatch (rt := engine) env (ManifestParsed 0 (VArr 0 ls)))
                 Fixture.streaming in
  quality_options s1 = labels /\ length labels = length ls /\
  (forall k o, nth_error labels k = Some o ->
     exists k',
       current_level
         (exec (dispatch (rt := engine) env (QualityChange (VStr o))) s1) 0
       = Some (Z.of_nat k') /\
       nth_error labels k' = Some o /\ k' <= k /\
       (NoDup labels -> k' = k)) /\
  (forall q, (forall o, In o labels -> q <> VStr o) ->
     current_level (exec (dispatch (rt := engine) env (QualityChange q)) s1) 0
     = Some (-1)%Z).
Proof.
  apply (@quality_choice_sets_level engine (Sample.page (Some true))
           Fixture.streaming 0 0
           [Fixture.level 360 500; Fixture.level 720 1000]
           [str "360p @ 500"; str "720p @ 1000"]);
    [vm_compute; lia | reflexivity].
Defined.

(** X16: the scenario's saved text. *)
Lemma load_takes_saved_array_witness :
  let env := Sample.page None in
  let s := Sample.state_of [] (Some Sample.scenario_text) in
  exists l,
    playlist (exec (load (rt := engine) env) s) = VArr (next_id s) l /\
    length l = 2 /\
    (forallb renderable l = true ->
     exists s',
       load (rt := engine) env s = (Ok tt, s') /\
       calls s' = calls s ++ [SetTimeout (PlayIndex 0) 50] /\
       (env_root_by_id env || env_root_by_class env = true ->
        length (items (root s')) = length l)) /\
    (In J_null Fixture.scenario_json ->
     env_root_by_id env || env_root_by_class env = true ->
     exists s',
       load (rt := engine) env s = (Throw TypeError, s') /\
       calls s' = calls s /\ root s' = root s).
Proof.
  apply (@load_takes_saved_array engine (Sample.page None)
           (Sample.state_of [] (Some Sample.scenario_text))
           Sample.scenario_text
           (J_object [ (str "title", J_string (str "Alpha"));
                       (str "stream_url", J_string (str "a.mp4")) ])
           [ J_object [ (str "title", J_string (str "Beta Show"));
                        (str "stream_url", J_string (str "b.m3u8")) ] ]);
    [reflexivity | discriminate | reflexivity].
Defined.

(** X17: "Alpha" is added to an empty playlist, and the page loads again. *)
Lemma added_playlist_survives_reload_witness :
  let env := Sample.page None in
  let s1 := exec (add (rt := engine) env Sample.alpha) (Sample.state_of [] None) in
  ls_playlist s1 = Some (JSON_stringify (Runtime := engine) (getPlaylist s1)) /\
  exists l',
    playlist (exec (load (rt := engine) env) s1) = VArr (next_id s1) l' /\
    length l' = 1.
Proof.
  apply (@added_playlist_survives_reload engine (Sample.page None)
           (Sample.state_of [] None) 0 [] Sample.alpha
           (J_object [ (str "title", J_string (str "Alpha"));
                       (str "stream_url", J_string (str "a.mp4")) ])
           []);
    [reflexivity | discriminate | reflexivity].
Defined.

(** X18: a first visit to a page with Hls.js. *)
Lemma first_visit_autoplays_first_demo_witness :
  let env := Sample.page (Some true) in
  let s := Sample.state_of [] None in
  let url := VStr (str "https://example.com/stream1.m3u8") in
  let s' := run (rt := engine) env [DOMContentLoaded; TimerFires] s in
  getPlaylist s' = demo_playlist (next_id s) /\
  isPlaying s' = true /\
  calls s' = calls s ++ [SetTimeout (PlayIndex 0) 50]
                     ++ (if hls_ready env then hls_attach url else [])
                     ++ [PlyrPlay] /\
  player_src s' = (if hls_ready env then player_src s
                   else Some (str "https://example.com/stream1.m3u8")).
Proof.
  apply (@first_visit_autoplays_first_demo engine (Sample.page (Some true))
           (Sample.state_of [] None) 0);
    reflexivity.
Defined.

(** X19: "be" and "beta". *)
Lemma longer_query_narrows_witness :
  exists kept',
    filter_playlist (rt := engine)
      (toLowerCase (Runtime := engine) (trim (Runtime := engine) (str "be")))
      (VArr 0 [Sample.alpha; Sample.beta_show; Sample.track 7 "Bed" "c.mp4"])
    = Ok kept' /\
    Subseq [Sample.beta_show] kept'.
Proof.
  apply (@longer_query_narrows engine (str "be") (str "beta")
           (VArr 0 [Sample.alpha; Sample.beta_show; Sample.track 7 "Bed" "c.mp4"])
           [Sample.beta_show]);
    reflexivity.
Defined.

(** X20: a successor function, wrapped once and called with [1]. *)
Lemma once_runner_runs_fn_once_witness :
  let fn := fun (_ : unit) (n : nat) => Ok (S n) in
  let r := fst (Once.wrap tt (Some fn) Once.onceWrapper) in
  fst (Once.invoke r 1) = Ok (Some 2) /\
  forall later b,
    let r' := Once.invoke_all (snd (Once.invoke r 1)) later in
    Once.applies r' = false /\ Once.invoke r' b = (Ok None, r').
Proof.
  apply (proj1 (proj2 (@once_runner_runs_fn_once unit nat nat tt
                         (fun _ n => Ok (S n)) 1)) 2).
  reflexivity.
Defined.

(** X22: a track with a source and no title. *)
Lemma untitled_track_has_two_defaults_witness :
  let env := Sample.page None in
  let s := Sample.state_of [Fixture.untitled] None in
  (forall i li, build_item (rt := engine) Fixture.untitled i = Ok li ->
     li_text li = str "Untitled" /\ li_img_alt li = str "Untitled") /\
  player_title (exec (playListItem (rt := engine) env 0) s)
  = (if env_player_title env then Some [] else player_title s).
Proof.
  apply (@untitled_track_has_two_defaults engine (Sample.page None)
           (Sample.state_of [Fixture.untitled] None) 0 [Fixture.untitled] 0
           Fixture.untitled VUndefined (str "e.mp4"));
    [reflexivity | lia | reflexivity | reflexivity | reflexivity | reflexivity
    | reflexivity].
Defined.

(** X23: a saved JSON object, then [add]. *)
Lemma add_after_non_array_load_witness :
  let env := Sample.page None in
  let text := Sample.json "{'kind':'not a list'}" in
  let s1 := exec (load (rt := engine) env) (Sample.state_of [] (Some text)) in
  add (rt := engine) env Sample.alpha s1 = (Throw TypeError, s1) /\
  ls_playlist (exec (add (rt := engine) env Sample.alpha) s1) = Some text.
Proof.
  apply (@add_after_non_array_load engine (Sample.page None)
           (Sample.state_of [] (Some (Sample.json "{'kind':'not a list'}")))
           (Sample.json "{'kind':'not a list'}")
           (J_object [ (str "kind", J_string (str "not a list")) ])
           Sample.alpha);
    [reflexivity | discriminate | reflexivity | discriminate | reflexivity
    | reflexivity].
Defined.

(** X24: a search that keeps a track with an odd logo. *)
Lemma failed_filtered_render_empties_container_witness :
  let s := Sample.state_of [Sample.alpha; Fixture.odd_logo] None in
  search (rt := engine) (Sample.page None) (str "beta") s
  = (Throw TypeError, set_root (Items []) s).
Proof.
  apply (@failed_filtered_render_empties_container engine (Sample.page None)
           (Sample.state_of [Sample.alpha; Fixture.odd_logo] None)
           (str "beta") [Fixture.odd_logo]);
    [reflexivity | discriminate | reflexivity | reflexivity].
Defined.
